(** * Credential lifecycle of the example authentication backend

    A shallow embedding of [utils/auth.utils.ts] (token generation and
    verification), of [controllers/auth.controller.ts] (register, login,
    refreshToken, logout, forgotPassword, resetPassword) and of the
    soft-delete middleware of [services/prisma.service.ts], followed by the
    properties of the credential lifecycle that the specification states.
    The other middlewares of [auth.utils.ts], [getMe], the query helpers of
    [prisma.service.ts] and the error formatting and sanitising of
    [validation.middleware.ts] are embedded after the controller, and their
    properties follow those of the lifecycle.

    Conventions of the embedding.
    - Time is [Date.now()]: milliseconds since the epoch, a [Z].
    - The [jsonwebtoken] package is modelled symbolically: a credential is
      either a term recording the claims and the secret it was signed with,
      or a string that does not parse as a token.  Equality of credentials
      is equality of these terms.
    - The database is a record of three tables, each a finite map from the
      row id to the row.  Every [await this.prisma...] of the controller is
      one atomic operation on it.
    - A request handler is a program over these operations; it is run either
      alone ([run]) or interleaved with a second handler, operation by
      operation, under an explicit schedule ([interleave]). *)

From stdpp Require Import gmap strings list fin_maps pretty.
From Stdlib Require Import ZArith Lia.

Local Open Scope Z_scope.
Local Open Scope string_scope.

(** ** Time and configuration *)

Definition Time := Z.

(** [process.env].  The two secrets are read with a non-null assertion
    ([process.env.JWT_SECRET!]).  A configured lifetime is kept as the number
    of milliseconds that the [ms] package reads from its text; [None] is an
    unset (or empty) variable, for which the code falls back to a literal. *)
Record Env := {
  JWT_SECRET : string;
  JWT_REFRESH_SECRET : string;
  JWT_EXPIRES_IN : option Z;
  JWT_REFRESH_EXPIRES_IN : option Z
}.

Definition minutes (n : Z) : Z := n * 60 * 1000.
Definition hours (n : Z) : Z := n * 60 * 60 * 1000.
Definition days (n : Z) : Z := n * 24 * 60 * 60 * 1000.

(** ** jsonwebtoken, symbolically *)

Module Jwt.

(** The decoded payload: the two fields the code puts in, and the [iat]
    and [exp] claims (in seconds) that [jwt.sign] adds. *)
Record Claims := {
  userId : string;
  type : string;
  iat : Z;
  exp : Z
}.

Inductive Credential :=
| Signed (claims : Claims) (key : string)
| Malformed (raw : string).

#[global] Instance Claims_eq_dec : EqDecision Claims.
Proof. solve_decision. Defined.

#[global] Instance Credential_eq_dec : EqDecision Credential.
Proof. solve_decision. Defined.

(** [jwt.sign({userId, type}, secret, {expiresIn})] at clock [now]:
    [iat = floor(now / 1000)] and [exp = floor(iat + expiresIn / 1000)]
    for a lifetime [expiresIn] given in milliseconds. *)
Definition sign (uid ty : string) (secret : string) (expiresIn : Z)
    (now : Time) : Credential :=
  Signed {| userId := uid; type := ty;
            iat := now / 1000;
            exp := now / 1000 + expiresIn / 1000 |} secret.

(** [jwt.verify(token, secret)] at clock [now]; [None] stands for the
    exception it throws (bad token, bad signature, or
    [floor(now / 1000) >= exp]). *)
Definition verify (token : Credential) (secret : string) (now : Time)
    : option Claims :=
  match token with
  | Malformed _ => None
  | Signed c k =>
      if decide (k = secret)
      then if decide (exp c <= now / 1000) then None else Some c
      else None
  end.

(** The secret a credential was signed with. *)
Definition signing_key (token : Credential) : option string :=
  match token with
  | Signed _ k => Some k
  | Malformed _ => None
  end.

End Jwt.

Abbreviation Credential := Jwt.Credential.

(** ** bcrypt, symbolically *)

(** A secret is its bytes.  bcrypt reads the first 72 of them and no more,
    so a digest records the cost and those bytes. *)
Inductive Digest := Bcrypt (rounds : N) (secret : string).

#[global] Instance Digest_eq_dec : EqDecision Digest.
Proof. solve_decision. Defined.

(** What bcrypt reads of a secret. *)
Definition bcrypt_input (secret : string) : string :=
  String.substring 0 72 secret.

Definition bcrypt_hash (secret : string) (rounds : N) : Digest :=
  Bcrypt rounds (bcrypt_input secret).

Definition bcrypt_compare (secret : string) (d : Digest) : bool :=
  match d with Bcrypt _ s => bool_decide (s = bcrypt_input secret) end.

(** ** Errors *)

Inductive Exn :=
| AppError (message : string) (statusCode : Z)
| PrismaError (code : string).

#[global] Instance Exn_eq_dec : EqDecision Exn.
Proof. solve_decision. Defined.

(** ** utils/auth.utils.ts *)

Module AuthUtils.

Record Tokens := { accessToken : Credential; refreshToken : Credential }.

(** [generateTokens(userId)]; both [jwt.sign] calls run in the same
    synchronous segment and read the clock [now]. *)
Definition generateTokens (env : Env) (uid : string) (now : Time) : Tokens :=
  {| accessToken :=
       Jwt.sign uid "access" (JWT_SECRET env)
         (default (minutes 15) (JWT_EXPIRES_IN env)) now;
     refreshToken :=
       Jwt.sign uid "refresh" (JWT_REFRESH_SECRET env)
         (default (days 7) (JWT_REFRESH_EXPIRES_IN env)) now |}.

(** [verifyRefreshToken(token)]: the payload, or [None] for [null]. *)
Definition verifyRefreshToken (env : Env) (token : Credential) (now : Time)
    : option Jwt.Claims :=
  match Jwt.verify token (JWT_REFRESH_SECRET env) now with
  | Some payload =>
      if decide (Jwt.type payload ≠ "refresh") then None else Some payload
  | None => None
  end.

(** The token part of the [authenticate] middleware: the bearer token is
    verified with [JWT_SECRET] and must carry [type = 'access']; the result
    is [req.user.id], or the error handed to [next].  Every exception of
    [jwt.verify] is a [JsonWebTokenError] ([TokenExpiredError] extends it),
    so the first test of the [catch] block answers for all of them. *)
Definition authenticate (env : Env) (token : Credential) (now : Time)
    : Exn + string :=
  match Jwt.verify token (JWT_SECRET env) now with
  | Some payload =>
      if decide (Jwt.type payload ≠ "access")
      then inl (AppError "Invalid token type" 401)
      else inr (Jwt.userId payload)
  | None => inl (AppError "Invalid token" 401)
  end.

End AuthUtils.

Import AuthUtils.

(** ** The database *)

(** Rows; the row id is the key of the table.  A user row carries the
    columns that the controller and the middleware read or write.  The
    profile columns and relations that [formatUserResponse] only copies into
    the response ([avatarUrl], [isEmailVerified], [createdAt], [updatedAt],
    [roles], [preferences]) are left out. *)
Record User := {
  email : string;
  password : Digest;
  name : string;
  lastLoginAt : option Time;
  deletedAt : option Time
}.

(** Modelled from the spec: the Prisma schema is not among the sources.
    [token], [userId] and [expiresAt] are the columns the controller
    writes; [createdAt] is the creation time that the data model gives a
    RefreshRecord, set by the database on insert. *)
Record RefreshToken := {
  rt_token : Credential;
  rt_userId : string;
  rt_expiresAt : Time;
  rt_createdAt : Time
}.

(** Modelled from the spec: the Prisma schema is not among the sources.
    [token], [userId] and [expiresAt] are the columns the controller
    writes; [used] is the flag it filters on and sets, false on insert as
    the data model has it. *)
Record PasswordReset := {
  pr_token : Credential;
  pr_userId : string;
  pr_expiresAt : Time;
  pr_used : bool
}.

#[global] Instance User_eq_dec : EqDecision User.
Proof. solve_decision. Defined.
#[global] Instance RefreshToken_eq_dec : EqDecision RefreshToken.
Proof. solve_decision. Defined.
#[global] Instance PasswordReset_eq_dec : EqDecision PasswordReset.
Proof. solve_decision. Defined.

Record Store := {
  users : gmap string User;
  refreshTokens : gmap string RefreshToken;
  passwordResets : gmap string PasswordReset
}.

Record World := { store : Store; clock : Time }.

Definition with_users (s : Store) (u : gmap string User) : Store :=
  {| users := u; refreshTokens := refreshTokens s;
     passwordResets := passwordResets s |}.
Definition with_refreshTokens (s : Store) (r : gmap string RefreshToken)
    : Store :=
  {| users := users s; refreshTokens := r;
     passwordResets := passwordResets s |}.
Definition with_passwordResets (s : Store) (p : gmap string PasswordReset)
    : Store :=
  {| users := users s; refreshTokens := refreshTokens s;
     passwordResets := p |}.
Definition with_store (w : World) (s : Store) : World :=
  {| store := s; clock := clock w |}.

(** *** Table primitives *)

Section Table.
Context {A : Type}.

(** [findFirst({where})]: a row satisfying the filter, if there is one. *)
Definition findFirst (p : A → bool) (m : gmap string A)
    : option (string * A) :=
  List.find (λ kv, p (snd kv)) (map_to_list m).

(** [create({data})]: the row is stored under an id that is not in use. *)
Definition create (row : A) (m : gmap string A)
    : string * gmap string A :=
  let id := fresh (dom m) in (id, <[id := row]> m).

(** [deleteMany({where})] *)
Definition deleteMany (p : A → bool) (m : gmap string A) : gmap string A :=
  filter (λ kv, p (snd kv) = false) m.

(** [updateMany({where, data})] restricted to one id. *)
Definition updateWhere (id : string) (p : A → bool) (f : A → A)
    (m : gmap string A) : gmap string A :=
  match m !! id with
  | Some row => if p row then <[id := f row]> m else m
  | None => m
  end.

(** [update({where: {id}, data})]: [None] when no row has that id (Prisma
    throws P2025, "record to update not found"). *)
Definition update (id : string) (f : A → A) (m : gmap string A)
    : option (A * gmap string A) :=
  match m !! id with
  | Some row => Some (f row, <[id := f row]> m)
  | None => None
  end.

End Table.

(** *** Queries, as the controller issues them through the middleware *)

(** [data] of [user.update]: the columns a call sets. *)
Record UserData := {
  set_password : option Digest;
  set_lastLoginAt : option Time
}.

Definition apply_UserData (d : UserData) (u : User) : User :=
  {| email := email u;
     password := default (password u) (set_password d);
     name := name u;
     lastLoginAt := from_option Some (lastLoginAt u) (set_lastLoginAt d);
     deletedAt := deletedAt u |}.

Definition live (u : User) : bool := bool_decide (deletedAt u = None).

(** [user.findUnique({where: {email}})].  [User] is a soft-delete model:
    the middleware turns the call into [findFirst] and adds
    [deletedAt: null] to the filter. *)
Definition user_findUnique (e : string) (s : Store)
    : option (string * User) :=
  findFirst (λ u, bool_decide (email u = e) && live u) (users s).

(** [user.create({data: {email, password, name, ...}})].  [findUnique] by
    email needs the column to be unique, so a row (soft-deleted or not) with
    the same email makes the insert fail with P2002. *)
Definition user_create (e : string) (pw : Digest) (n : string) (s : Store)
    : Exn + (string * User) * Store :=
  match findFirst (λ u, bool_decide (email u = e)) (users s) with
  | Some _ => inl (PrismaError "P2002")
  | None =>
      let row := {| email := e; password := pw; name := n;
                    lastLoginAt := None; deletedAt := None |} in
      let '(id, m) := create row (users s) in
      inr ((id, row), with_users s m)
  end.

(** [user.update({where: {id}, data})].  The middleware turns it into
    [updateMany] with [deletedAt: null] added to the filter, which does not
    throw when no row matches. *)
Definition user_update (id : string) (d : UserData) (s : Store) : Store :=
  with_users s (updateWhere id live (apply_UserData d) (users s)).

(** [refreshToken.create({data: {token, userId, expiresAt}})] *)
Definition refreshToken_create (tok : Credential) (uid : string)
    (expiresAt : Time) (now : Time) (s : Store)
    : (string * RefreshToken) * Store :=
  let row := {| rt_token := tok; rt_userId := uid;
                rt_expiresAt := expiresAt; rt_createdAt := now |} in
  let '(id, m) := create row (refreshTokens s) in
  ((id, row), with_refreshTokens s m).

(** [refreshToken.deleteMany({where: {userId}})] *)
Definition refreshToken_deleteMany (uid : string) (s : Store) : Store :=
  with_refreshTokens s
    (deleteMany (λ r, bool_decide (rt_userId r = uid)) (refreshTokens s)).

(** [refreshToken.findFirst({where: {token, userId, expiresAt: {gt}}})] *)
Definition refreshToken_findFirst (tok : Credential) (uid : string)
    (gt : Time) (s : Store) : option (string * RefreshToken) :=
  findFirst (λ r, bool_decide (rt_token r = tok)
                  && bool_decide (rt_userId r = uid)
                  && bool_decide (gt < rt_expiresAt r)) (refreshTokens s).

(** [refreshToken.update({where: {id}, data: {token, expiresAt}})] *)
Definition refreshToken_update (id : string) (tok : Credential)
    (expiresAt : Time) (s : Store) : Exn + RefreshToken * Store :=
  match update id (λ r, {| rt_token := tok; rt_userId := rt_userId r;
                           rt_expiresAt := expiresAt;
                           rt_createdAt := rt_createdAt r |})
               (refreshTokens s) with
  | Some (row, m) => inr (row, with_refreshTokens s m)
  | None => inl (PrismaError "P2025")
  end.

(** [passwordReset.create({data: {token, userId, expiresAt}})]; a new row
    is not used. *)
Definition passwordReset_create (tok : Credential) (uid : string)
    (expiresAt : Time) (s : Store) : (string * PasswordReset) * Store :=
  let row := {| pr_token := tok; pr_userId := uid;
                pr_expiresAt := expiresAt; pr_used := false |} in
  let '(id, m) := create row (passwordResets s) in
  ((id, row), with_passwordResets s m).

(** [passwordReset.findFirst({where: {token, userId, used: false,
    expiresAt: {gt}}})] *)
Definition passwordReset_findFirst (tok : Credential) (uid : string)
    (gt : Time) (s : Store) : option (string * PasswordReset) :=
  findFirst (λ r, bool_decide (pr_token r = tok)
                  && bool_decide (pr_userId r = uid)
                  && bool_decide (pr_used r = false)
                  && bool_decide (gt < pr_expiresAt r)) (passwordResets s).

(** [passwordReset.update({where: {id}, data: {used}})] *)
Definition passwordReset_update (id : string) (u : bool) (s : Store)
    : Exn + PasswordReset * Store :=
  match update id (λ r, {| pr_token := pr_token r; pr_userId := pr_userId r;
                           pr_expiresAt := pr_expiresAt r; pr_used := u |})
               (passwordResets s) with
  | Some (row, m) => inr (row, with_passwordResets s m)
  | None => inl (PrismaError "P2025")
  end.

(** The writes that the controller puts in a [$transaction([...])]. *)
Inductive Write :=
| UserUpdate (id : string) (data : UserData)
| PasswordResetUpdate (id : string) (used : bool).

Definition write (q : Write) (s : Store) : Exn + Store :=
  match q with
  | UserUpdate id d => inr (user_update id d s)
  | PasswordResetUpdate id u =>
      match passwordReset_update id u s with
      | inr (_, s') => inr s'
      | inl e => inl e
      end
  end.

(** [$transaction(qs)]: the writes are applied in order; the first one that
    fails aborts the transaction, and nothing of it is kept. *)
Fixpoint writes (qs : list Write) (s : Store) : Exn + Store :=
  match qs with
  | [] => inr s
  | q :: qs' =>
      match write q s with
      | inr s' => writes qs' s'
      | inl e => inl e
      end
  end.

Definition transaction (qs : list Write) (s : Store) : Exn + Store :=
  writes qs s.

(** ** Handlers as programs over the database *)

(** One constructor per call the controller awaits, and [Now] for a reading
    of the clock ([Date.now()], [new Date()]). *)
Inductive Op : Type → Type :=
| Now : Op Time
| UserFindUnique (e : string) : Op (option (string * User))
| UserCreate (e : string) (pw : Digest) (n : string) : Op (string * User)
| UserUpdateOne (id : string) (data : UserData) : Op unit
| RefreshTokenCreate (tok : Credential) (uid : string) (expiresAt : Time)
    : Op (string * RefreshToken)
| RefreshTokenDeleteMany (uid : string) : Op unit
| RefreshTokenFindFirst (tok : Credential) (uid : string) (gt : Time)
    : Op (option (string * RefreshToken))
| RefreshTokenUpdate (id : string) (tok : Credential) (expiresAt : Time)
    : Op RefreshToken
| PasswordResetCreate (tok : Credential) (uid : string) (expiresAt : Time)
    : Op (string * PasswordReset)
| PasswordResetFindFirst (tok : Credential) (uid : string) (gt : Time)
    : Op (option (string * PasswordReset))
| Transaction (qs : list Write) : Op unit.

Definition perform {X} (op : Op X) (w : World) : (Exn + X) * World :=
  match op in Op X return (Exn + X) * World with
  | Now => (inr (clock w), w)
  | UserFindUnique e => (inr (user_findUnique e (store w)), w)
  | UserCreate e pw n =>
      match user_create e pw n (store w) with
      | inr (row, s) => (inr row, with_store w s)
      | inl x => (inl x, w)
      end
  | UserUpdateOne id d => (inr (), with_store w (user_update id d (store w)))
  | RefreshTokenCreate tok uid ex =>
      let '(row, s) := refreshToken_create tok uid ex (clock w) (store w) in
      (inr row, with_store w s)
  | RefreshTokenDeleteMany uid =>
      (inr (), with_store w (refreshToken_deleteMany uid (store w)))
  | RefreshTokenFindFirst tok uid gt =>
      (inr (refreshToken_findFirst tok uid gt (store w)), w)
  | RefreshTokenUpdate id tok ex =>
      match refreshToken_update id tok ex (store w) with
      | inr (row, s) => (inr row, with_store w s)
      | inl x => (inl x, w)
      end
  | PasswordResetCreate tok uid ex =>
      let '(row, s) := passwordReset_create tok uid ex (store w) in
      (inr row, with_store w s)
  | PasswordResetFindFirst tok uid gt =>
      (inr (passwordReset_findFirst tok uid gt (store w)), w)
  | Transaction qs =>
      match transaction qs (store w) with
      | inr s => (inr (), with_store w s)
      | inl x => (inl x, w)
      end
  end.

(** A handler: it returns, throws, or awaits an operation and goes on with
    its result. *)
Inductive Prog (A : Type) : Type :=
| Ret (a : A)
| Throw (e : Exn)
| Vis {X : Type} (op : Op X) (k : X → Prog A).

Arguments Ret {A} a.
Arguments Throw {A} e.
Arguments Vis {A X} op k.

(** [await op] *)
Definition call {X} (op : Op X) : Prog X := Vis op Ret.

Fixpoint bind {A B} (p : Prog A) (f : A → Prog B) : Prog B :=
  match p with
  | Ret a => f a
  | Throw e => Throw e
  | Vis op k => Vis op (λ x, bind (k x) f)
  end.

#[global] Instance Prog_ret : MRet Prog := @Ret.
#[global] Instance Prog_bind : MBind Prog := λ A B f p, bind p f.

(** What a handler leaves to its caller: the value it produced, or the
    exception that [asyncHandler] passes to [next]. *)
Inductive Outcome (A : Type) : Type :=
| Returned (a : A)
| Raised (e : Exn).

Arguments Returned {A} a.
Arguments Raised {A} e.

(** A handler run on its own: no other request touches the database and the
    clock stands still while it runs. *)
Fixpoint run {A} (p : Prog A) (w : World) : Outcome A * World :=
  match p with
  | Ret a => (Returned a, w)
  | Throw e => (Raised e, w)
  | Vis op k =>
      match perform op w with
      | (inr x, w') => run (k x) w'
      | (inl e, w') => (Raised e, w')
      end
  end.

(** One operation of a handler. *)
Definition step {A} (p : Prog A) (w : World) : Prog A * World :=
  match p with
  | Vis op k =>
      match perform op w with
      | (inr x, w') => (k x, w')
      | (inl e, w') => (Throw e, w')
      end
  | _ => (p, w)
  end.

Definition outcome {A} (p : Prog A) : option (Outcome A) :=
  match p with
  | Ret a => Some (Returned a)
  | Throw e => Some (Raised e)
  | Vis _ _ => None
  end.

(** Two requests in flight.  A schedule says whose operation the database
    serves next, and when the clock advances. *)
Inductive Turn := First | Second | Tick (ms : N).

Fixpoint interleave {A B} (sched : list Turn) (pa : Prog A) (pb : Prog B)
    (w : World) : Prog A * Prog B * World :=
  match sched with
  | [] => (pa, pb, w)
  | First :: sched' =>
      let '(pa', w') := step pa w in interleave sched' pa' pb w'
  | Second :: sched' =>
      let '(pb', w') := step pb w in interleave sched' pa pb' w'
  | Tick ms :: sched' =>
      interleave sched' pa pb {| store := store w;
                                 clock := clock w + Z.of_N ms |}
  end.

(** ** controllers/auth.controller.ts *)

(** [formatUserResponse(user)], for the columns of the embedding. *)
Record UserResponse := { ur_id : string; ur_email : string; ur_name : string }.

Inductive Data :=
| DataSession (user : UserResponse) (access refresh : Credential)
| DataTokens (access refresh : Credential)
| DataMessage (message : string)
| DataNull.

(** [res.status(status).json({success, data, metadata: {timestamp}})] *)
Record Response := {
  status : Z;
  success : bool;
  data : Data;
  timestamp : Time
}.

#[global] Instance UserResponse_eq_dec : EqDecision UserResponse.
Proof. solve_decision. Defined.
#[global] Instance Data_eq_dec : EqDecision Data.
Proof. solve_decision. Defined.
#[global] Instance Response_eq_dec : EqDecision Response.
Proof. solve_decision. Defined.

Definition formatUserResponse (id : string) (u : User) : UserResponse :=
  {| ur_id := id; ur_email := email u; ur_name := name u |}.

Definition json (st : Z) (d : Data) (ts : Time) : Response :=
  {| status := st; success := true; data := d; timestamp := ts |}.

(** Each definition is the [asyncHandler] of the route of the same name; the
    [validateRequest] that precedes it answers a body that does not match
    the schema before the handler runs.  [bcrypt.hash] and [bcrypt.compare]
    touch neither the database nor the clock.  A clock reading stands at the
    head of every synchronous segment that uses the time. *)
Module AuthController.
Section WithEnv.

Context (env : Env).

Definition register (e pw n : string) : Prog Response :=
  existingUser ← call (UserFindUnique e);
  match existingUser with
  | Some _ => Throw (AppError "User with this email already exists" 409)
  | None =>
      let hashedPassword := bcrypt_hash pw 10 in
      user ← call (UserCreate e hashedPassword n);
      now ← call Now;
      let t := generateTokens env user.1 now in
      _ ← call (RefreshTokenCreate (refreshToken t) user.1 (now + days 7));
      ts ← call Now;
      Ret (json 201
             (DataSession (formatUserResponse user.1 user.2)
                (accessToken t) (refreshToken t)) ts)
  end.

Definition login (e pw : string) : Prog Response :=
  found ← call (UserFindUnique e);
  match found with
  | None => Throw (AppError "Invalid email or password" 401)
  | Some user =>
      if bcrypt_compare pw (password user.2) then
        now ← call Now;
        let t := generateTokens env user.1 now in
        _ ← call (RefreshTokenDeleteMany user.1);
        now ← call Now;
        _ ← call (RefreshTokenCreate (refreshToken t) user.1
                    (now + days 7));
        now ← call Now;
        _ ← call (UserUpdateOne user.1
                    {| set_password := None; set_lastLoginAt := Some now |});
        ts ← call Now;
        Ret (json 200
               (DataSession (formatUserResponse user.1 user.2)
                  (accessToken t) (refreshToken t)) ts)
      else Throw (AppError "Invalid email or password" 401)
  end.

Definition refreshToken (tok : Credential) : Prog Response :=
  now ← call Now;
  match verifyRefreshToken env tok now with
  | None => Throw (AppError "Invalid refresh token" 401)
  | Some payload =>
      storedToken ← call (RefreshTokenFindFirst tok (Jwt.userId payload) now);
      match storedToken with
      | None => Throw (AppError "Invalid refresh token" 401)
      | Some stored =>
          now ← call Now;
          let t := generateTokens env (Jwt.userId payload) now in
          _ ← call (RefreshTokenUpdate stored.1 (AuthUtils.refreshToken t)
                      (now + days 7));
          ts ← call Now;
          Ret (json 200
                 (DataTokens (accessToken t) (AuthUtils.refreshToken t)) ts)
      end
  end.

Definition logout (user : option string) : Prog Response :=
  _ ← match user with
      | Some uid => call (RefreshTokenDeleteMany uid)
      | None => Ret ()
      end;
  ts ← call Now;
  Ret (json 200 DataNull ts).

Definition forgotPassword (e : string) : Prog Response :=
  found ← call (UserFindUnique e);
  match found with
  | None =>
      ts ← call Now;
      Ret (json 200
             (DataMessage "If the email exists, a reset link has been sent.")
             ts)
  | Some user =>
      now ← call Now;
      let resetToken :=
        Jwt.sign user.1 "password-reset" (JWT_SECRET env) (hours 1) now in
      _ ← call (PasswordResetCreate resetToken user.1 (now + hours 1));
      ts ← call Now;
      Ret (json 200
             (DataMessage "If the email exists, a reset link has been sent.")
             ts)
  end.

Definition resetPassword (token : Credential) (pw : string)
    : Prog Response :=
  now ← call Now;
  match Jwt.verify token (JWT_SECRET env) now with
  | None => Throw (AppError "Invalid or expired reset token" 400)
  | Some payload =>
      if decide (Jwt.type payload ≠ "password-reset")
      then Throw (AppError "Invalid reset token" 400)
      else
        resetToken ← call (PasswordResetFindFirst token
                             (Jwt.userId payload) now);
        match resetToken with
        | None => Throw (AppError "Invalid or expired reset token" 400)
        | Some found =>
            let hashedPassword := bcrypt_hash pw 10 in
            _ ← call (Transaction
                        [UserUpdate (Jwt.userId payload)
                           {| set_password := Some hashedPassword;
                              set_lastLoginAt := None |};
                         PasswordResetUpdate found.1 true]);
            ts ← call Now;
            Ret (json 200
                   (DataMessage "Password has been reset successfully.") ts)
        end
  end.

End WithEnv.
End AuthController.

(** ** Notions used in the properties *)

(** A credential whose signed expiry lies after the clock [now]. *)
Definition unexpired (tok : Credential) (now : Time) : Prop :=
  match tok with
  | Jwt.Signed c _ => now / 1000 < Jwt.exp c
  | Jwt.Malformed _ => False
  end.

(** The refresh credential a response hands out. *)
Definition refresh_of (res : Response) : option Credential :=
  match data res with
  | DataSession _ _ r => Some r
  | DataTokens _ r => Some r
  | _ => None
  end.

(** The handlers that hand out a session: [register], [login] and
    [refreshToken]. *)
Inductive Issuing (env : Env) : Prog Response → Prop :=
| issuing_register e pw n : Issuing env (AuthController.register env e pw n)
| issuing_login e pw : Issuing env (AuthController.login env e pw)
| issuing_refresh tok : Issuing env (AuthController.refreshToken env tok).


(** No two rows of the table belong to the principal [uid]. *)
Definition at_most_one (uid : string) (m : gmap string RefreshToken) : Prop :=
  ∀ id1 id2 r1 r2,
    m !! id1 = Some r1 → m !! id2 = Some r2 →
    rt_userId r1 = uid → rt_userId r2 = uid → id1 = id2.

(** Exactly one row of the table belongs to the principal [uid]. *)
Definition exactly_one (uid : string) (m : gmap string RefreshToken) : Prop :=
  (∃ id row, m !! id = Some row ∧ rt_userId row = uid) ∧ at_most_one uid m.

(** Every refresh row belongs to a row of the user table. *)
Definition referential (s : Store) : Prop :=
  ∀ id row,
    refreshTokens s !! id = Some row → is_Some (users s !! rt_userId row).

(** The six handlers of the controller. *)
Inductive Handler (env : Env) : Prog Response → Prop :=
| handler_register e pw n : Handler env (AuthController.register env e pw n)
| handler_login e pw : Handler env (AuthController.login env e pw)
| handler_refreshToken tok : Handler env (AuthController.refreshToken env tok)
| handler_logout user : Handler env (AuthController.logout user)
| handler_forgotPassword e :
    Handler env (AuthController.forgotPassword env e)
| handler_resetPassword tok pw :
    Handler env (AuthController.resetPassword env tok pw).

(** ** Concrete scenarios *)

Module Scenario.

Definition env : Env :=
  {| JWT_SECRET := "access-secret";
     JWT_REFRESH_SECRET := "refresh-secret";
     JWT_EXPIRES_IN := None;
     JWT_REFRESH_EXPIRES_IN := None |}.

(** The same deployment with refresh credentials signed for one day. *)
Definition env_1d : Env :=
  {| JWT_SECRET := "access-secret";
     JWT_REFRESH_SECRET := "refresh-secret";
     JWT_EXPIRES_IN := None;
     JWT_REFRESH_EXPIRES_IN := Some (days 1) |}.

Definition empty : World :=
  {| store := {| users := ∅; refreshTokens := ∅; passwordResets := ∅ |};
     clock := 1700000000000 |}.

Definition later (ms : Z) (w : World) : World :=
  {| store := store w; clock := clock w + ms |}.

(** The response of a run that returned one. *)
Definition returned (o : Outcome Response) : Response :=
  match o with
  | Returned res => res
  | Raised _ => json 500 DataNull 0
  end.

(** Ann has registered. *)
Definition registered : World :=
  (run (AuthController.register env "ann@example.com" "correct horse" "Ann")
     empty).2.

(** The refresh credential Ann received on registration. *)
Definition ann_refresh : Credential :=
  refreshToken (generateTokens env "0" (clock empty)).

(** A minute later Ann has asked for a password reset. *)
Definition reset_requested : World :=
  (run (AuthController.forgotPassword env "ann@example.com")
     (later 60000 registered)).2.

Definition ann_reset : Credential :=
  Jwt.sign "0" "password-reset" (JWT_SECRET env) (hours 1)
    (clock empty + 60000).



End Scenario.

(** Further states: Ann's account after it was soft-deleted, an hour after
    she registered. *)
Module Cases.

Definition ann_deleted : World :=
  {| store :=
       {| users :=
            {["0" := {| email := "ann@example.com";
                        password := Bcrypt 10 "correct horse";
                        name := "Ann"; lastLoginAt := None;
                        deletedAt := Some 1700003600000 |}]};
          refreshTokens := refreshTokens (store Scenario.registered);
          passwordResets := ∅ |};
     clock := 1700003600000 |}.

End Cases.

(** ** utils/auth.utils.ts: the other middlewares *)

Module AuthGuards.

(** [req.user] of [AuthRequest]. *)
Record ReqUser := {
  id : string;
  user_email : option string;
  roles : option (list string)
}.

(** [req.user = { id: payload.userId }] *)
Definition attach (uid : string) : ReqUser :=
  {| id := uid; user_email := None; roles := None |}.

(** [s.substring(n)] *)
Fixpoint substring_from (n : nat) (s : string) : string :=
  match n, s with
  | O, _ => s
  | S n', String _ s' => substring_from n' s'
  | S _, EmptyString => EmptyString
  end.

(** The bearer token of the [authorization] header:
    [authHeader && authHeader.startsWith('Bearer ')
       ? authHeader.substring(7) : null]. *)
Definition bearer (authHeader : option string) : option string :=
  match authHeader with
  | Some h => if String.prefix "Bearer " h then Some (substring_from 7 h)
              else None
  | None => None
  end.

(** [optionalAuth], from the token on: [None] is a request without bearer
    token.  A verified access credential sets [req.user]; every failure is
    swallowed by the [catch] and the request goes on without a user.  (The
    empty token that [if (token)] skips is a malformed credential, which
    [jwt.verify] would reject as well.) *)
Definition optionalAuth (env : Env) (token : option Credential) (now : Time)
    : option ReqUser :=
  match token with
  | Some t =>
      match Jwt.verify t (JWT_SECRET env) now with
      | Some payload =>
          if decide (Jwt.type payload = "access")
          then Some (attach (Jwt.userId payload))
          else None
      | None => None
      end
  | None => None
  end.

(** [authorize(...roles)]: [inr ()] stands for [next()]. *)
Definition authorize (allowed : list string) (user : option ReqUser)
    : Exn + unit :=
  match user with
  | None => inl (AppError "Authentication required" 401)
  | Some u =>
      match roles u with
      | None => inl (AppError "Insufficient permissions" 403)
      | Some rs =>
          if existsb (λ role, bool_decide (role ∈ rs)) allowed
          then inr ()
          else inl (AppError "Insufficient permissions" 403)
      end
  end.

End AuthGuards.

(** ** controllers/auth.controller.ts: [getMe] *)

Module Profile.

(** The response of [getMe]: [data] is the formatted user itself. *)
Record MeResponse := {
  me_status : Z;
  me_success : bool;
  me_data : UserResponse;
  me_timestamp : Time
}.

(** [user.findUnique({where: {id}})] through the middleware: [findFirst]
    with [deletedAt: null] added. *)
Definition user_findUnique_id (uid : string) (s : Store)
    : option (string * User) :=
  match users s !! uid with
  | Some u => if live u then Some (uid, u) else None
  | None => None
  end.

(** [getMe], for the [req.user.id] that [authenticate] attached.  Its one
    query reads; the database is returned as it was. *)
Definition getMe (uid : string) (w : World)
    : Outcome MeResponse * World :=
  match user_findUnique_id uid (store w) with
  | None => (Raised (AppError "User not found" 404), w)
  | Some user =>
      (Returned {| me_status := 200; me_success := true;
                   me_data := formatUserResponse user.1 user.2;
                   me_timestamp := clock w |}, w)
  end.

End Profile.

(** ** services/prisma.service.ts: the soft-delete middleware *)

Module SoftDelete.

(** Values of a filter or of a [data] object. *)
Inductive Json :=
| JNull
| JBool (b : bool)
| JNum (n : Z)
| JStr (s : string)
| JDate (t : Time)
| JObj (fields : Fields)
with Fields :=
| FNil
| FCons (key : string) (value : Json) (rest : Fields).

(** [params.args] when the call had an argument object: its [where] and
    its [data] ([None] for a field that is not set).  A filter and a [data]
    object are maps from their keys. *)
Record Args := {
  args_where : option (gmap string Json);
  args_data : option (gmap string Json)
}.

(** [params] of a Prisma middleware: the model, the action, and
    [params.args], which is undefined ([None]) for a call without an
    argument object, such as [findMany()]. *)
Record Params := {
  model : option string;
  action : string;
  args : option Args
}.

Definition softDeleteModels : list string := ["User"; "Post"; "Comment"].

Definition set_action (a : string) (p : Params) : Params :=
  {| model := model p; action := a; args := args p |}.
Definition set_where (wh : gmap string Json) (a : Args) (p : Params)
    : Params :=
  {| model := model p; action := action p;
     args := Some {| args_where := Some wh; args_data := args_data a |} |}.
Definition set_data (d : gmap string Json) (a : Args) (p : Params)
    : Params :=
  {| model := model p; action := action p;
     args := Some {| args_where := args_where a; args_data := Some d |} |}.

(** [{ ...params.args.where, deletedAt: null }] *)
Definition not_deleted (wh : option (gmap string Json)) : gmap string Json :=
  <["deletedAt" := JNull]> (default ∅ wh).

(** The five tests of the middleware, in the order of the source; each one
    reads the action that the tests before it may have rewritten.  A test
    that applies reads or writes a field of [params.args]; when
    [params.args] is undefined this throws a [TypeError] ([None]) and
    [next] is not called. *)
Definition on_find (p : Params) : option Params :=
  if bool_decide (action p = "findUnique" ∨ action p = "findFirst")
  then match args p with
       | Some a =>
           Some (set_where (not_deleted (args_where a)) a
                   (set_action "findFirst" p))
       | None => None
       end
  else Some p.

Definition on_findMany (p : Params) : option Params :=
  if bool_decide (action p = "findMany") then
    match args p with
    | Some a =>
        match args_where a with
        | Some wh =>
            match wh !! "deletedAt" with
            | None => Some (set_where (<["deletedAt" := JNull]> wh) a p)
            | Some _ => Some p
            end
        | None => Some (set_where {["deletedAt" := JNull]} a p)
        end
    | None => None
    end
  else Some p.

Definition on_update (p : Params) : option Params :=
  if bool_decide (action p = "update")
  then match args p with
       | Some a =>
           Some (set_where (not_deleted (args_where a)) a
                   (set_action "updateMany" p))
       | None => None
       end
  else Some p.

Definition on_delete (now : Time) (p : Params) : option Params :=
  if bool_decide (action p = "delete")
  then match args p with
       | Some a =>
           Some (set_data {["deletedAt" := JDate now]} a
                   (set_action "update" p))
       | None => None
       end
  else Some p.

Definition on_deleteMany (now : Time) (p : Params) : option Params :=
  if bool_decide (action p = "deleteMany")
  then match args p with
       | Some a =>
           Some (set_data {["deletedAt" := JDate now]} a
                   (set_action "updateMany" p))
       | None => None
       end
  else Some p.

(** The query that [next(params)] receives, at clock [now]; [None] when
    the middleware throws instead of calling [next]. *)
Definition middleware (now : Time) (p : Params) : option Params :=
  if bool_decide (default "" (model p) ∈ softDeleteModels)
  then p1 ← on_find p;
       p2 ← on_findMany p1;
       p3 ← on_update p2;
       p4 ← on_delete now p3;
       on_deleteMany now p4
  else Some p.

End SoftDelete.

(** ** services/prisma.service.ts: [PrismaQueryHelpers] *)

Module PrismaQueryHelpers.

(** The value of [Math.ceil(total / limit)] for integers: a division by
    zero gives [Infinity], or [NaN] when [total] is zero as well. *)
Inductive Num := Finite (z : Z) | Infinity | NaN.

Definition ceil_div (total : nat) (limit : Z) : Num :=
  if decide (limit = 0)
  then if decide (total = 0%nat) then NaN else Infinity
  else Finite (- (- Z.of_nat total / limit)).

(** [page < n] *)
Definition lt_num (page : Z) (n : Num) : bool :=
  match n with
  | Finite z => bool_decide (page < z)
  | Infinity => true
  | NaN => false
  end.

Section Paginate.
Context {A : Type}.

(** [findMany({where, orderBy, skip, take})] on the rows that match
    [where], in the order of [orderBy].  Prisma rejects a negative [skip]
    ([None]) and reads a negative [take] from the end of the list. *)
Definition findMany (rows : list A) (skip take_ : Z) : option (list A) :=
  if decide (skip < 0) then None
  else if decide (0 ≤ take_)%Z
       then Some (take (Z.to_nat take_) (drop (Z.to_nat skip) rows))
       else Some (reverse (take (Z.to_nat (- take_))
                             (drop (Z.to_nat skip) (reverse rows)))).

Record Page := {
  data : list A;
  page : Z;
  limit : Z;
  total : nat;
  totalPages : Num;
  hasNext : bool;
  hasPrev : bool
}.

(** [paginate(model, {page = 1, limit = 10, where, orderBy})].  [rows] are
    the rows that [findMany] finds for [where] and [orderBy], and [counted]
    is what [count({where})] answers; [None] is the rejection of
    [findMany]. *)
Definition paginate (rows : list A) (counted : nat) (page_ limit_ : option Z)
    : option Page :=
  let page_ := default 1 page_ in
  let limit_ := default 10 limit_ in
  let skip := (page_ - 1) * limit_ in
  match findMany rows skip limit_ with
  | Some found =>
      Some {| data := found; page := page_; limit := limit_;
              total := counted;
              totalPages := ceil_div counted limit_;
              hasNext := lt_num page_ (ceil_div counted limit_);
              hasPrev := bool_decide (1 < page_) |}
  | None => None
  end.

End Paginate.

Arguments Page : clear implicits.

Section BulkCreate.
Context {T St : Type}.

(** [model.createMany({data: chunk, skipDuplicates: true})] on a database
    of type [St]: the rows it counted as created and the database it
    leaves, or the error it throws. *)
Context (createMany : list T → St → Exn + (Z * St)).

(** [data.slice(start, end)] *)
Definition slice (l : list T) (start end_ : Z) : list T :=
  let len := Z.of_nat (length l) in
  let s := if decide (start < 0) then Z.max (len + start) 0
           else Z.min start len in
  let e := if decide (end_ < 0) then Z.max (len + end_) 0
           else Z.min end_ len in
  take (Z.to_nat (e - s)) (drop (Z.to_nat s) l).

(** The loop of [bulkCreate] from index [i] on; [fuel] bounds the number
    of iterations, and [None] is a loop that has not finished within it. *)
Fixpoint bulkCreate_from (fuel : nat) (data : list T) (chunkSize : Z)
    (i created : Z) (st : St) : option (Exn + (Z * St)) :=
  match fuel with
  | O => None
  | S fuel' =>
      if decide (i < Z.of_nat (length data)) then
        match createMany (slice data i (i + chunkSize)) st with
        | inr (count, st') =>
            bulkCreate_from fuel' data chunkSize (i + chunkSize)
              (created + count) st'
        | inl e => Some (inl e)
        end
      else Some (inr (created, st))
  end.

(** [bulkCreate(model, data, chunkSize = 1000)] *)
Definition bulkCreate (fuel : nat) (data : list T) (chunkSize : option Z)
    (st : St) : option (Exn + (Z * St)) :=
  bulkCreate_from fuel data (default 1000 chunkSize) 0 0 st.

(** The chunks sent one after the other, with the counts added up. *)
Fixpoint send (chunks : list (list T)) (created : Z) (st : St)
    : Exn + (Z * St) :=
  match chunks with
  | [] => inr (created, st)
  | c :: chunks' =>
      match createMany c st with
      | inr (count, st') => send chunks' (created + count) st'
      | inl e => inl e
      end
  end.

End BulkCreate.

(** [findOrCreate(model, {where, create})] on a table: the record, whether
    it was created, and the table afterwards. *)
Definition findOrCreate {A} (p : A → bool) (row : A) (m : gmap string A)
    : (string * A) * bool * gmap string A :=
  match findFirst p m with
  | Some record => (record, false, m)
  | None => let '(id, m') := create row m in ((id, row), true, m')
  end.

End PrismaQueryHelpers.

(** The rows that [paginate] returns for a page; none when it is rejected. *)
Definition page_data {A} (rows : list A) (limit : Z) (page : Z) : list A :=
  match PrismaQueryHelpers.paginate rows (length rows) (Some page)
          (Some limit) with
  | Some r => PrismaQueryHelpers.data r
  | None => []
  end.

(** A database that keeps the chunks it is sent and creates every row. *)
Definition recording (chunk : list string) (st : list (list string))
    : Exn + (Z * list (list string)) :=
  inr (Z.of_nat (length chunk), (st ++ [chunk])%list).

(** ** middlewares/validation.middleware.ts *)

Module Validation.

(** An issue of a [ZodError]: the path to the value, made of property
    names and array indices, and the message. *)
Inductive PathElem := Key (k : string) | Index (i : N).

Record ZodIssue := { path : list PathElem; message : string }.

Definition show (e : PathElem) : string :=
  match e with
  | Key k => k
  | Index i => pretty i
  end.

(** [err.path.join('.')] *)
Definition join_path (p : list PathElem) : string :=
  String.concat "." (show <$> p).

(** The property names that the object literal [{}] inherits from
    [Object.prototype].  For these [errors[path]] is truthy before anything
    was stored, and what it holds has no [push]. *)
Definition inherited : list string :=
  ["constructor"; "__defineGetter__"; "__defineSetter__"; "hasOwnProperty";
   "__lookupGetter__"; "__lookupSetter__"; "isPrototypeOf";
   "propertyIsEnumerable"; "toString"; "valueOf"; "__proto__";
   "toLocaleString"].

(** One turn of the [forEach]; the map holds the own properties of
    [errors], and [None] is the [TypeError] of a [push] that does not
    exist. *)
Definition add_issue (errors : gmap string (list string)) (err : ZodIssue)
    : option (gmap string (list string)) :=
  let p := join_path (path err) in
  match errors !! p with
  | Some messages => Some (<[p := (messages ++ [message err])%list]> errors)
  | None =>
      if bool_decide (p ∈ inherited) then None
      else Some (<[p := [message err]]> errors)
  end.

Fixpoint format_from (errors : gmap string (list string))
    (issues : list ZodIssue) : option (gmap string (list string)) :=
  match issues with
  | [] => Some errors
  | err :: issues' =>
      match add_issue errors err with
      | Some errors' => format_from errors' issues'
      | None => None
      end
  end.

(** [formatZodErrors(error)] on [error.errors]. *)
Definition formatZodErrors (issues : list ZodIssue)
    : option (gmap string (list string)) :=
  format_from ∅ issues.

(** The messages of the issues whose path joins to [k], in order. *)
Definition messages_at (k : string) (issues : list ZodIssue) : list string :=
  message <$> filter (λ err, join_path (path err) = k) issues.

(** *** [sanitizeInput] *)

(** A string is its UTF-16 code units. *)
Definition JsString := list N.

(** [\s], which is also what [trim] removes: the white space and the line
    terminators of the language. *)
Definition is_space (c : N) : bool :=
  bool_decide (c ∈ [9; 10; 11; 12; 13; 32; 160; 5760; 8232; 8233; 8239;
                    8287; 12288; 65279]%N)
  || bool_decide (8192 ≤ c ≤ 8202)%N.

(** [s.replace(/<[^>]*>?/gm, '')]: from a [<] everything up to and with
    the next [>], or up to the end when there is none, is dropped.
    [in_tag] says that a [<] is open. *)
Fixpoint strip_tags_from (in_tag : bool) (s : JsString) : JsString :=
  match s with
  | [] => []
  | c :: s' =>
      if in_tag
      then if decide (c = 62%N) then strip_tags_from false s'
           else strip_tags_from true s'
      else if decide (c = 60%N) then strip_tags_from true s'
           else c :: strip_tags_from false s'
  end.

Definition strip_tags (s : JsString) : JsString := strip_tags_from false s.

Fixpoint trim_start (s : JsString) : JsString :=
  match s with
  | [] => []
  | c :: s' => if is_space c then trim_start s' else s
  end.

(** [s.trim()] *)
Definition trim (s : JsString) : JsString :=
  reverse (trim_start (reverse (trim_start s))).

(** [s.replace(/\s+/g, ' ')]: every run of white space becomes one space.
    [in_run] says that the character before was white space. *)
Fixpoint collapse_from (in_run : bool) (s : JsString) : JsString :=
  match s with
  | [] => []
  | c :: s' =>
      if is_space c
      then if in_run then collapse_from true s'
           else 32%N :: collapse_from true s'
      else c :: collapse_from false s'
  end.

Definition collapse (s : JsString) : JsString := collapse_from false s.

(** The three assignments to [req.body[field]]. *)
Definition sanitize (s : JsString) : JsString :=
  collapse (trim (strip_tags s)).

(** A value of the request body. *)
Inductive Value := VString (s : JsString) | VOther (raw : string).

(** [sanitizeInput(fields)] on [req.body]: a field is rewritten when it
    holds a string that is not empty. *)
Definition sanitize_field (body : gmap string Value) (field : string)
    : gmap string Value :=
  match body !! field with
  | Some (VString (c :: s)) => <[field := VString (sanitize (c :: s))]> body
  | _ => body
  end.

Definition sanitizeInput (fields : list string) (body : gmap string Value)
    : gmap string Value :=
  foldl sanitize_field body fields.

End Validation.

(** What [sanitizeInput] makes of a value it rewrites. *)
Definition sanitize_value (v : Validation.Value) : Validation.Value :=
  match v with
  | Validation.VString s => Validation.VString (Validation.sanitize s)
  | Validation.VOther _ => v
  end.

(** Every white-space character of the string is a space that no white
    space precedes; [after_space] says that white space stands before the
    string. *)
Fixpoint spaced (after_space : bool) (s : Validation.JsString) : Prop :=
  match s with
  | [] => True
  | c :: s' =>
      if Validation.is_space c
      then c = 32%N ∧ after_space = false ∧ spaced true s'
      else spaced false s'
  end.

(** * Properties *)

(** ** Tables *)

Section TableFacts.
Context {A : Type}.
Implicit Types (m : gmap string A) (p : A → bool).

Lemma findFirst_Some p m k row :
  findFirst p m = Some (k, row) → m !! k = Some row ∧ p row = true.
Proof.
  unfold findFirst. intros H. apply find_some in H as [Hin Hp].
  split; [|exact Hp].
  apply elem_of_map_to_list. by apply list_elem_of_In.
Qed.

Lemma findFirst_None p m k row :
  findFirst p m = None → m !! k = Some row → p row = false.
Proof.
  unfold findFirst. intros H Hk.
  apply (find_none _ _ H (k, row)).
  apply list_elem_of_In. by apply elem_of_map_to_list.
Qed.

Lemma findFirst_None_intro p m :
  (∀ k row, m !! k = Some row → p row = false) → findFirst p m = None.
Proof.
  intros H. unfold findFirst.
  destruct (List.find _ _) as [[k row]|] eqn:E; [|done].
  apply find_some in E as [Hin Hp]. simpl in Hp.
  apply list_elem_of_In, elem_of_map_to_list in Hin.
  rewrite (H _ _ Hin) in Hp. discriminate.
Qed.

Lemma findFirst_is_Some p m k row :
  m !! k = Some row → p row = true → is_Some (findFirst p m).
Proof.
  intros Hk Hp. destruct (findFirst p m) eqn:E; [by eexists|].
  rewrite (findFirst_None _ _ _ _ E Hk) in Hp. discriminate.
Qed.

(** When one row only satisfies the filter, [findFirst] returns it. *)
Lemma findFirst_unique p m k row :
  m !! k = Some row → p row = true →
  (∀ k' row', m !! k' = Some row' → p row' = true → k' = k) →
  findFirst p m = Some (k, row).
Proof.
  intros Hk Hp Hu.
  destruct (findFirst_is_Some p m k row Hk Hp) as [[k' row'] E].
  destruct (findFirst_Some _ _ _ _ E) as [Hk' Hp'].
  assert (k' = k) as -> by eauto.
  rewrite Hk in Hk'. by simplify_eq.
Qed.

Lemma deleteMany_lookup p m k row :
  deleteMany p m !! k = Some row ↔ m !! k = Some row ∧ p row = false.
Proof. unfold deleteMany. by rewrite map_lookup_filter_Some. Qed.

End TableFacts.

(** ** Signer and verifier *)

(** C8. Round trip: a credential that was just issued for a principal and
    has not reached its expiry verifies as its own kind and yields the id of
    that principal.  The access half of [generateTokens] passes
    [authenticate] with the principal as [req.user.id]; the refresh half
    passes [verifyRefreshToken] with [userId] the principal and [type]
    refresh; the reset credential of [forgotPassword] passes the
    verification of [resetPassword] with [type] password-reset. *)
Theorem issue_verify_roundtrip (env : Env) (uid : string) (issued now : Time) :
  let t := generateTokens env uid issued in
  let reset := Jwt.sign uid "password-reset" (JWT_SECRET env) (hours 1) issued in
  (unexpired (accessToken t) now → authenticate env (accessToken t) now = inr uid)
  ∧ (unexpired (refreshToken t) now →
     ∃ payload, verifyRefreshToken env (refreshToken t) now = Some payload
                ∧ Jwt.userId payload = uid ∧ Jwt.type payload = "refresh")
  ∧ (unexpired reset now →
     ∃ payload, Jwt.verify reset (JWT_SECRET env) now = Some payload
                ∧ Jwt.userId payload = uid
                ∧ Jwt.type payload = "password-reset").
Proof.
  unfold generateTokens, authenticate, verifyRefreshToken, Jwt.sign,
    Jwt.verify, unexpired; cbn [accessToken refreshToken Jwt.exp Jwt.type Jwt.userId].
  repeat split; intros H.
  - repeat case_decide; done || lia.
  - repeat case_decide; try done; try lia. eauto.
  - repeat case_decide; try done; try lia. eauto.
Qed.

Lemma issue_verify_roundtrip_immediately :
  let t := generateTokens Scenario.env "0" 1700000000000 in
  let reset :=
    Jwt.sign "0" "password-reset" (JWT_SECRET Scenario.env) (hours 1)
      1700000000000 in
  authenticate Scenario.env (accessToken t) 1700000000000 = inr "0"
  ∧ (∃ payload,
       verifyRefreshToken Scenario.env (refreshToken t) 1700000000000
         = Some payload
       ∧ Jwt.userId payload = "0" ∧ Jwt.type payload = "refresh")
  ∧ (∃ payload,
       Jwt.verify reset (JWT_SECRET Scenario.env) 1700000000000 = Some payload
       ∧ Jwt.userId payload = "0" ∧ Jwt.type payload = "password-reset").
Proof.
  destruct (issue_verify_roundtrip Scenario.env "0" 1700000000000 1700000000000)
    as (Ha & Hr & Hp).
  split; [apply Ha | split; [apply Hr | apply Hp]]; vm_compute; reflexivity.
Defined.

(** ** The handlers run alone *)

Section RunAlone.
Context (env : Env).

Lemma run_refreshToken tok w :
  run (AuthController.refreshToken env tok) w =
  match verifyRefreshToken env tok (clock w) with
  | None => (Raised (AppError "Invalid refresh token" 401), w)
  | Some payload =>
      match refreshToken_findFirst tok (Jwt.userId payload) (clock w)
              (store w) with
      | None => (Raised (AppError "Invalid refresh token" 401), w)
      | Some stored =>
          let t := generateTokens env (Jwt.userId payload) (clock w) in
          match refreshToken_update stored.1 (refreshToken t)
                  (clock w + days 7) (store w) with
          | inr (_, s) =>
              (Returned (json 200 (DataTokens (accessToken t) (refreshToken t))
                           (clock w)),
               with_store w s)
          | inl x => (Raised x, w)
          end
      end
  end.
Proof.
  unfold AuthController.refreshToken.
  cbn [run mbind Prog_bind bind call perform].
  destruct (verifyRefreshToken env tok (clock w)) as [payload|]; [|done].
  cbn [run mbind Prog_bind bind call perform].
  destruct (refreshToken_findFirst _ _ _ _) as [stored|]; [|done].
  cbn [run mbind Prog_bind bind call perform].
  destruct (refreshToken_update _ _ _ _) as [x|[row s]]; done.
Qed.

Lemma run_forgotPassword e w :
  run (AuthController.forgotPassword env e) w =
  (Returned (json 200
     (DataMessage "If the email exists, a reset link has been sent.")
     (clock w)),
   match user_findUnique e (store w) with
   | None => w
   | Some user =>
       with_store w
         (passwordReset_create
            (Jwt.sign user.1 "password-reset" (JWT_SECRET env) (hours 1)
               (clock w))
            user.1 (clock w + hours 1) (store w)).2
   end).
Proof.
  unfold AuthController.forgotPassword.
  cbn [run mbind Prog_bind bind call perform].
  destruct (user_findUnique e (store w)) as [user|]; [|done].
  cbn [run mbind Prog_bind bind call perform with_store store clock].
  by destruct (passwordReset_create _ _ _ _) as [row s].
Qed.

Lemma run_resetPassword tok pw w :
  run (AuthController.resetPassword env tok pw) w =
  match Jwt.verify tok (JWT_SECRET env) (clock w) with
  | None => (Raised (AppError "Invalid or expired reset token" 400), w)
  | Some payload =>
      if decide (Jwt.type payload ≠ "password-reset")
      then (Raised (AppError "Invalid reset token" 400), w)
      else
        match passwordReset_findFirst tok (Jwt.userId payload) (clock w)
                (store w) with
        | None => (Raised (AppError "Invalid or expired reset token" 400), w)
        | Some found =>
            match transaction
                    [UserUpdate (Jwt.userId payload)
                       {| set_password := Some (bcrypt_hash pw 10);
                          set_lastLoginAt := None |};
                     PasswordResetUpdate found.1 true] (store w) with
            | inr s =>
                (Returned (json 200
                   (DataMessage "Password has been reset successfully.")
                   (clock w)),
                 with_store w s)
            | inl x => (Raised x, w)
            end
        end
  end.
Proof.
  unfold AuthController.resetPassword. cbn [run mbind Prog_bind bind call perform].
  destruct (Jwt.verify tok _ _) as [payload|]; [|done].
  case_decide; [done|].
  cbn [run mbind Prog_bind bind call perform].
  destruct (passwordReset_findFirst _ _ _ _) as [found|]; [|done].
  cbn [run mbind Prog_bind bind call perform].
  destruct (transaction _ _) as [x|s]; done.
Qed.

Lemma run_login e pw w :
  run (AuthController.login env e pw) w =
  match user_findUnique e (store w) with
  | None => (Raised (AppError "Invalid email or password" 401), w)
  | Some user =>
      if bcrypt_compare pw (password user.2) then
        let t := generateTokens env user.1 (clock w) in
        let s1 := refreshToken_deleteMany user.1 (store w) in
        let s2 := (refreshToken_create (refreshToken t) user.1
                     (clock w + days 7) (clock w) s1).2 in
        let s3 := user_update user.1
                    {| set_password := None;
                       set_lastLoginAt := Some (clock w) |} s2 in
        (Returned (json 200
           (DataSession (formatUserResponse user.1 user.2)
              (accessToken t) (refreshToken t)) (clock w)),
         with_store w s3)
      else (Raised (AppError "Invalid email or password" 401), w)
  end.
Proof.
  unfold AuthController.login. cbn [run mbind Prog_bind bind call perform].
  destruct (user_findUnique e (store w)) as [user|]; [|done].
  destruct (bcrypt_compare _ _); [|done].
  cbn [run mbind Prog_bind bind call perform with_store store clock].
  by destruct (refreshToken_create _ _ _ _ _) as [row s].
Qed.

Lemma run_register e pw n w :
  run (AuthController.register env e pw n) w =
  match user_findUnique e (store w) with
  | Some _ =>
      (Raised (AppError "User with this email already exists" 409), w)
  | None =>
      match user_create e (bcrypt_hash pw 10) n (store w) with
      | inl x => (Raised x, w)
      | inr (user, s1) =>
          let t := generateTokens env user.1 (clock w) in
          let s2 := (refreshToken_create (refreshToken t) user.1
                       (clock w + days 7) (clock w) s1).2 in
          (Returned (json 201
             (DataSession (formatUserResponse user.1 user.2)
                (accessToken t) (refreshToken t)) (clock w)),
           with_store w s2)
      end
  end.
Proof.
  unfold AuthController.register. cbn [run mbind Prog_bind bind call perform].
  destruct (user_findUnique e (store w)) as [user|]; [done|].
  cbn [run mbind Prog_bind bind call perform].
  destruct (user_create _ _ _ _) as [x|[user s1]]; [done|].
  cbn [run mbind Prog_bind bind call perform with_store store clock].
  by destruct (refreshToken_create _ _ _ _ _) as [row s].
Qed.

Lemma run_logout user w :
  run (AuthController.logout user) w =
  (Returned (json 200 DataNull (clock w)),
   match user with
   | Some uid => with_store w (refreshToken_deleteMany uid (store w))
   | None => w
   end).
Proof. by destruct user. Qed.

End RunAlone.

(** A handler run alone is the schedule that serves only its operations. *)
Lemma run_as_schedule {A B} (p : Prog A) (q : Prog B) (w : World) :
  ∃ n,
    let r := interleave (replicate n First) p q w in
    outcome r.1.1 = Some (run p w).1 ∧ r.1.2 = q ∧ r.2 = (run p w).2.
Proof.
  revert w. induction p as [a|e|X op k IH]; intros w.
  - by exists 0%nat.
  - by exists 0%nat.
  - cbn [run]. destruct (perform op w) as [[e|x] w1] eqn:Hop.
    + exists 1%nat. cbn. by rewrite Hop.
    + destruct (IH x w1) as [n Hn]. exists (S n). cbn. by rewrite Hop.
Qed.

(** ** Store facts used by several properties *)

Lemma refreshToken_update_found id row tok ex s :
  refreshTokens s !! id = Some row →
  refreshToken_update id tok ex s =
    inr ({| rt_token := tok; rt_userId := rt_userId row;
            rt_expiresAt := ex; rt_createdAt := rt_createdAt row |},
         with_refreshTokens s
           (<[id := {| rt_token := tok; rt_userId := rt_userId row;
                       rt_expiresAt := ex;
                       rt_createdAt := rt_createdAt row |}]>
              (refreshTokens s))).
Proof. intros H. unfold refreshToken_update, update. by rewrite H. Qed.

Lemma refreshToken_findFirst_Some tok uid gt s id row :
  refreshToken_findFirst tok uid gt s = Some (id, row) →
  refreshTokens s !! id = Some row
  ∧ rt_token row = tok ∧ rt_userId row = uid ∧ gt < rt_expiresAt row.
Proof.
  intros H. apply findFirst_Some in H as [Hl Hp]. split; [done|].
  repeat (apply andb_prop in Hp as [Hp ?]).
  repeat match goal with
         | H : bool_decide _ = true |- _ => apply bool_decide_eq_true in H
         end.
  done.
Qed.

Lemma passwordReset_findFirst_Some tok uid gt s id row :
  passwordReset_findFirst tok uid gt s = Some (id, row) →
  passwordResets s !! id = Some row
  ∧ pr_token row = tok ∧ pr_userId row = uid ∧ pr_used row = false
  ∧ gt < pr_expiresAt row.
Proof.
  intros H. apply findFirst_Some in H as [Hl Hp]. split; [done|].
  repeat (apply andb_prop in Hp as [Hp ?]).
  repeat match goal with
         | H : bool_decide _ = true |- _ => apply bool_decide_eq_true in H
         end.
  done.
Qed.

Lemma passwordReset_update_found id row u s :
  passwordResets s !! id = Some row →
  passwordReset_update id u s =
    inr ({| pr_token := pr_token row; pr_userId := pr_userId row;
            pr_expiresAt := pr_expiresAt row; pr_used := u |},
         with_passwordResets s
           (<[id := {| pr_token := pr_token row; pr_userId := pr_userId row;
                       pr_expiresAt := pr_expiresAt row; pr_used := u |}]>
              (passwordResets s))).
Proof. intros H. unfold passwordReset_update, update. by rewrite H. Qed.

(** ** Rotation *)

(** C9. A successful rotation mutates the stored record in place: the row
    that the lookup found keeps its id, its [userId] and its [createdAt],
    only [token] and [expiresAt] are written, the table has the same ids as
    before (no row is added), and the other tables are untouched. *)
Theorem rotation_in_place (env : Env) (tok : Credential) (w w' : World)
    (res : Response) :
  run (AuthController.refreshToken env tok) w = (Returned res, w') →
  ∃ id old new,
    refreshTokens (store w) !! id = Some old
    ∧ refreshTokens (store w') = <[id := new]> (refreshTokens (store w))
    ∧ rt_userId new = rt_userId old
    ∧ rt_createdAt new = rt_createdAt old
    ∧ data res = DataTokens (accessToken (generateTokens env (rt_userId old) (clock w)))
                            (rt_token new)
    ∧ dom (refreshTokens (store w')) = dom (refreshTokens (store w))
    ∧ users (store w') = users (store w)
    ∧ passwordResets (store w') = passwordResets (store w).
Proof.
  rewrite run_refreshToken.
  destruct (verifyRefreshToken _ _ _) as [payload|]; [|done].
  destruct (refreshToken_findFirst _ _ _ _) as [[id old]|] eqn:Hfind; [|done].
  apply refreshToken_findFirst_Some in Hfind as (Hold & _ & Huid & _).
  cbn zeta. cbn [fst]. rewrite (refreshToken_update_found _ _ _ _ _ Hold).
  intros [= <- <-]. eexists id, old, _. split; [done|].
  split; [reflexivity|]. cbn. rewrite Huid.
  repeat split. apply dom_insert_lookup_L. by eexists.
Qed.

Lemma rotation_in_place_example :
  ∃ id old new,
    refreshTokens (store Scenario.registered) !! id = Some old
    ∧ refreshTokens
        (store (run (AuthController.refreshToken Scenario.env
                       Scenario.ann_refresh)
                  (Scenario.later 5000 Scenario.registered)).2)
      = <[id := new]> (refreshTokens (store Scenario.registered))
    ∧ rt_userId new = rt_userId old
    ∧ rt_createdAt new = rt_createdAt old.
Proof.
  destruct (rotation_in_place Scenario.env Scenario.ann_refresh
              (Scenario.later 5000 Scenario.registered)
              (run (AuthController.refreshToken Scenario.env
                      Scenario.ann_refresh)
                 (Scenario.later 5000 Scenario.registered)).2
              (json 200
                 (DataTokens
                    (accessToken (generateTokens Scenario.env "0"
                                    (clock Scenario.empty + 5000)))
                    (refreshToken (generateTokens Scenario.env "0"
                                     (clock Scenario.empty + 5000))))
                 (clock Scenario.empty + 5000)))
    as (id & old & new & H1 & H2 & H3 & H4 & _).
  - vm_compute. reflexivity.
  - exists id, old, new. auto.
Defined.

(** ** Stored expiry *)

Lemma seven_days_in_seconds (c : Z) :
  (c + 7 * 24 * 60 * 60 * 1000) / 1000 = c / 1000 + 604800.
Proof.
  replace (c + 7 * 24 * 60 * 60 * 1000) with (c + 604800 * 1000) by lia.
  apply Z.div_add. lia.
Qed.

(** C10. On every successful registration, login and rotation the row that
    holds the refresh credential of the response expires exactly
    7 * 24 * 60 * 60 * 1000 ms after the current time, whatever
    [JWT_REFRESH_EXPIRES_IN] is, while the expiry signed into that
    credential is the current second plus the configured lifetime (seven
    days when the variable is unset); so, in seconds, the stored expiry is
    the signed one exactly when the configured lifetime is 604800 s, and
    differs from it under any other configuration.  Such a case exists:
    with a lifetime of one day Ann's login succeeds and the only row left
    holds the credential returned, stored for seven days and signed for
    one. *)
Theorem stored_expiry_is_seven_days :
  (∀ (env : Env) (p : Prog Response) (w w' : World) (res : Response),
     Issuing env p →
     run p w = (Returned res, w') →
     ∃ id row claims,
       refreshTokens (store w') !! id = Some row
       ∧ refresh_of res = Some (rt_token row)
       ∧ rt_expiresAt row = clock w + 7 * 24 * 60 * 60 * 1000
       ∧ rt_token row = Jwt.Signed claims (JWT_REFRESH_SECRET env)
       ∧ Jwt.exp claims
         = clock w / 1000
           + default (days 7) (JWT_REFRESH_EXPIRES_IN env) / 1000
       ∧ (rt_expiresAt row / 1000 = Jwt.exp claims
          ↔ default (days 7) (JWT_REFRESH_EXPIRES_IN env) / 1000 = 604800))
  ∧ (∃ (env : Env) (w w' : World) (res : Response) (id : string)
       (row : RefreshToken) (claims : Jwt.Claims),
       JWT_REFRESH_EXPIRES_IN env = Some (days 1)
       ∧ run (AuthController.login env "ann@example.com" "correct horse") w
         = (Returned res, w')
       ∧ status res = 200
       ∧ refreshTokens (store w') = {[id := row]}
       ∧ refresh_of res = Some (rt_token row)
       ∧ rt_token row = Jwt.Signed claims (JWT_REFRESH_SECRET env)
       ∧ rt_expiresAt row = clock w + 7 * 24 * 60 * 60 * 1000
       ∧ Jwt.exp claims * 1000 = clock w + 24 * 60 * 60 * 1000).
Proof.
  split.
  - intros env p w w' res Hp Hrun. destruct Hp as [e pw n|e pw|tok].
    + rewrite run_register in Hrun.
      destruct (user_findUnique _ _); [done|].
      destruct (user_create _ _ _ _) as [x|[user s1]]; [done|].
      cbn zeta in Hrun. injection Hrun as <- <-.
      eexists _, _, _. cbn.
      split; [apply lookup_insert_eq|]. cbn.
      split; [done|]. split; [unfold days; lia|].
      split; [reflexivity|]. split; [reflexivity|].
      rewrite seven_days_in_seconds. cbn [Jwt.exp]. lia.
    + rewrite run_login in Hrun.
      destruct (user_findUnique _ _) as [user|]; [|done].
      destruct (bcrypt_compare _ _); [|done].
      cbn zeta in Hrun. injection Hrun as <- <-.
      eexists _, _, _. cbn.
      split; [apply lookup_insert_eq|]. cbn.
      split; [done|]. split; [unfold days; lia|].
      split; [reflexivity|]. split; [reflexivity|].
      rewrite seven_days_in_seconds. cbn [Jwt.exp]. lia.
    + rewrite run_refreshToken in Hrun.
      destruct (verifyRefreshToken _ _ _) as [payload|]; [|done].
      destruct (refreshToken_findFirst _ _ _ _) as [[id old]|] eqn:Hfind;
        [|done].
      apply refreshToken_findFirst_Some in Hfind as (Hold & _).
      cbn zeta in Hrun. cbn [fst] in Hrun.
      rewrite (refreshToken_update_found _ _ _ _ _ Hold) in Hrun.
      injection Hrun as <- <-.
      eexists id, _, _.
      cbn [store with_store with_refreshTokens refreshTokens].
      split; [apply lookup_insert_eq|]. cbn.
      split; [done|]. split; [unfold days; lia|].
      split; [reflexivity|]. split; [reflexivity|].
      rewrite seven_days_in_seconds. cbn [Jwt.exp]. lia.
  - exists Scenario.env_1d, (Scenario.later 1000 Scenario.registered).
    exists (run (AuthController.login Scenario.env_1d "ann@example.com"
                   "correct horse")
              (Scenario.later 1000 Scenario.registered)).2.
    exists (Scenario.returned
              (run (AuthController.login Scenario.env_1d "ann@example.com"
                      "correct horse")
                 (Scenario.later 1000 Scenario.registered)).1).
    exists "0".
    exists {| rt_token :=
                refreshToken (generateTokens Scenario.env_1d "0"
                                1700000001000);
              rt_userId := "0";
              rt_expiresAt := 1700604801000;
              rt_createdAt := 1700000001000 |}.
    exists {| Jwt.userId := "0"; Jwt.type := "refresh";
              Jwt.iat := 1700000001; Jwt.exp := 1700086401 |}.
    vm_compute. repeat split.
Qed.

Lemma stored_expiry_on_login :
  ∃ id row,
    refreshTokens
      (store (run (AuthController.login Scenario.env_1d "ann@example.com"
                     "correct horse")
                (Scenario.later 1000 Scenario.registered)).2) !! id = Some row
    ∧ rt_expiresAt row = 1700000001000 + 7 * 24 * 60 * 60 * 1000
    ∧ rt_expiresAt row / 1000
      ≠ Jwt.exp (default
                   {| Jwt.userId := ""; Jwt.type := ""; Jwt.iat := 0;
                      Jwt.exp := 0 |}
                   (Jwt.verify (rt_token row) "refresh-secret"
                      1700000001000)).
Proof.
  destruct (proj1 stored_expiry_is_seven_days Scenario.env_1d
              (AuthController.login Scenario.env_1d "ann@example.com"
                 "correct horse")
              (Scenario.later 1000 Scenario.registered)
              (run (AuthController.login Scenario.env_1d "ann@example.com"
                      "correct horse")
                 (Scenario.later 1000 Scenario.registered)).2
              (Scenario.returned
                 (run (AuthController.login Scenario.env_1d "ann@example.com"
                         "correct horse")
                    (Scenario.later 1000 Scenario.registered)).1))
    as (rid & row & claims & Hrow & _ & Hex & Htok & Hsigned & Hdiv).
  - constructor.
  - vm_compute. reflexivity.
  - exists rid, row. split; [exact Hrow|]. split; [exact Hex|].
    rewrite Htok. cbn [Jwt.verify Scenario.env_1d JWT_REFRESH_SECRET].
    rewrite decide_True by reflexivity.
    rewrite decide_False.
    + cbn [from_option id]. intros Heq. apply Hdiv in Heq. vm_compute in Heq.
      discriminate Heq.
    + rewrite Hsigned. vm_compute. intros H. apply H. reflexivity.
Defined.

(** ** Failure responses *)

(** C6. [forgotPassword] answers the same whether or not a principal with
    the email exists: two runs at the same clock, on any two databases,
    return the same response; and when no principal has the email the run
    leaves the database as it was. *)
Theorem forgotPassword_indistinguishable (env : Env) (e : string)
    (w1 w2 : World) :
  clock w1 = clock w2 →
  (run (AuthController.forgotPassword env e) w1).1
    = (run (AuthController.forgotPassword env e) w2).1
  ∧ (run (AuthController.forgotPassword env e) w1).1
    = Returned (json 200
        (DataMessage "If the email exists, a reset link has been sent.")
        (clock w1))
  ∧ (user_findUnique e (store w1) = None →
     (run (AuthController.forgotPassword env e) w1).2 = w1).
Proof.
  intros Hc. rewrite !run_forgotPassword. cbn [fst snd]. rewrite Hc.
  repeat split. by intros ->.
Qed.

Lemma forgotPassword_indistinguishable_example :
  (run (AuthController.forgotPassword Scenario.env "ann@example.com")
     Scenario.empty).1
  = (run (AuthController.forgotPassword Scenario.env "ann@example.com")
       (Scenario.later 0 Scenario.registered)).1
  ∧ (run (AuthController.forgotPassword Scenario.env "ann@example.com")
       Scenario.empty).2 = Scenario.empty.
Proof.
  destruct (forgotPassword_indistinguishable Scenario.env "ann@example.com"
              Scenario.empty (Scenario.later 0 Scenario.registered))
    as (H1 & _ & H3).
  - vm_compute. reflexivity.
  - split; [exact H1 | apply H3; vm_compute; reflexivity].
Defined.

Lemma transaction_reset_found uid d id row s :
  passwordResets s !! id = Some row →
  transaction [UserUpdate uid d; PasswordResetUpdate id true] s =
    inr (with_passwordResets (user_update uid d s)
           (<[id := {| pr_token := pr_token row; pr_userId := pr_userId row;
                       pr_expiresAt := pr_expiresAt row; pr_used := true |}]>
              (passwordResets s))).
Proof.
  intros H. unfold transaction. cbn [writes write].
  by rewrite (passwordReset_update_found id row true (user_update uid d s)).
Qed.

(** C7, as the code has it. Every failure of [refreshToken] run alone is
    the one error [AppError('Invalid refresh token', 401)].  Every failure
    of [resetPassword] run alone is an [AppError] of status 400; its message
    is 'Invalid or expired reset token' when the signature check or the
    lookup fails, and 'Invalid reset token' when the credential verifies
    under [JWT_SECRET] but is of another kind. *)
Theorem failures_collapsed (env : Env) (tok : Credential) (pw : string)
    (w w' : World) (x : Exn) :
  (run (AuthController.refreshToken env tok) w = (Raised x, w') →
   x = AppError "Invalid refresh token" 401)
  ∧ (run (AuthController.resetPassword env tok pw) w = (Raised x, w') →
     (x = AppError "Invalid or expired reset token" 400
      ∧ (Jwt.verify tok (JWT_SECRET env) (clock w) = None
         ∨ ∃ payload,
             Jwt.verify tok (JWT_SECRET env) (clock w) = Some payload
             ∧ passwordReset_findFirst tok (Jwt.userId payload) (clock w)
                 (store w) = None))
     ∨ (x = AppError "Invalid reset token" 400
        ∧ ∃ payload,
            Jwt.verify tok (JWT_SECRET env) (clock w) = Some payload
            ∧ Jwt.type payload ≠ "password-reset")).
Proof.
  split.
  - rewrite run_refreshToken.
    destruct (verifyRefreshToken _ _ _) as [payload|]; [|congruence].
    destruct (refreshToken_findFirst _ _ _ _) as [[id old]|] eqn:Hfind;
      [|congruence].
    apply refreshToken_findFirst_Some in Hfind as (Hold & _).
    cbn zeta. cbn [fst]. by rewrite (refreshToken_update_found _ _ _ _ _ Hold).
  - rewrite run_resetPassword.
    destruct (Jwt.verify _ _ _) as [payload|]; [|intros [= <- _]; auto].
    case_decide; [intros [= <- _]; right; eauto|].
    destruct (passwordReset_findFirst _ _ _ _) as [[id row]|] eqn:Hfind;
      [|intros [= <- _]; left; eauto].
    apply passwordReset_findFirst_Some in Hfind as (Hrow & _).
    cbn [fst]. by rewrite (transaction_reset_found _ _ _ _ _ Hrow).
Qed.

Lemma failures_collapsed_example :
  AppError "Invalid refresh token" 401 = AppError "Invalid refresh token" 401
  ∧ ((AppError "Invalid or expired reset token" 400
        = AppError "Invalid or expired reset token" 400
      ∧ (Jwt.verify (Jwt.Malformed "garbage") (JWT_SECRET Scenario.env)
           (clock Scenario.registered) = None
         ∨ ∃ payload,
             Jwt.verify (Jwt.Malformed "garbage") (JWT_SECRET Scenario.env)
               (clock Scenario.registered) = Some payload
             ∧ passwordReset_findFirst (Jwt.Malformed "garbage")
                 (Jwt.userId payload) (clock Scenario.registered)
                 (store Scenario.registered) = None))
     ∨ (AppError "Invalid or expired reset token" 400
          = AppError "Invalid reset token" 400
        ∧ ∃ payload,
            Jwt.verify (Jwt.Malformed "garbage") (JWT_SECRET Scenario.env)
              (clock Scenario.registered) = Some payload
            ∧ Jwt.type payload ≠ "password-reset")).
Proof.
  split.
  - apply (proj1 (failures_collapsed Scenario.env (Jwt.Malformed "garbage")
                    "new password" Scenario.registered Scenario.registered
                    (AppError "Invalid refresh token" 401))).
    vm_compute. reflexivity.
  - apply (proj2 (failures_collapsed Scenario.env (Jwt.Malformed "garbage")
                    "new password" Scenario.registered Scenario.registered
                    (AppError "Invalid or expired reset token" 400))).
    vm_compute. reflexivity.
Defined.

(** C7, as stated, fails.  A valid access credential presented to
    [resetPassword] is refused with a message of its own, so the caller
    tells a wrong kind from a bad signature; and a rotation whose row is
    deleted by a logout between its lookup and its update fails with
    Prisma's error, not with the refresh error. *)
Lemma reset_wrong_kind_told_apart :
  let access := accessToken (generateTokens Scenario.env "0"
                               (clock Scenario.empty)) in
  (run (AuthController.resetPassword Scenario.env access "new password")
     Scenario.registered).1
  = Raised (AppError "Invalid reset token" 400)
  ∧ (run (AuthController.resetPassword Scenario.env (Jwt.Malformed "garbage")
            "new password") Scenario.registered).1
    = Raised (AppError "Invalid or expired reset token" 400)
  ∧ AppError "Invalid reset token" 400
    ≠ AppError "Invalid or expired reset token" 400
  ∧ outcome (interleave [First; First; Second; First; First]
               (AuthController.refreshToken Scenario.env Scenario.ann_refresh)
               (AuthController.logout (Some "0"))
               Scenario.registered).1.1
    = Some (Raised (PrismaError "P2025")).
Proof. vm_compute. repeat split; discriminate. Qed.

(** ** Signing keys *)

(** C4, as stated, fails: the reset credential that [forgotPassword] stores
    for Ann is signed with the secret of her access credential, which is
    neither the refresh secret nor a third one. *)
Lemma reset_signed_with_access_key :
  ∃ id row,
    passwordResets (store Scenario.reset_requested) !! id = Some row
    ∧ pr_token row = Scenario.ann_reset
    ∧ Jwt.signing_key (pr_token row)
      = Jwt.signing_key (accessToken (generateTokens Scenario.env "0"
                                        (clock Scenario.empty)))
    ∧ Jwt.signing_key (pr_token row)
      ≠ Jwt.signing_key (refreshToken (generateTokens Scenario.env "0"
                                         (clock Scenario.empty))).
Proof. exists "0". eexists. vm_compute. repeat split. discriminate. Qed.

(** C4, as the code has it. Access credentials are signed with
    [JWT_SECRET] and refresh credentials with [JWT_REFRESH_SECRET]; the
    reset credential that [forgotPassword] stores for a principal is signed
    with [JWT_SECRET] too.  Access and reset credentials are kept apart by
    the [type] they carry: [authenticate] never accepts the reset
    credential, and [resetPassword] never accepts the access credential. *)
Theorem signing_keys (env : Env) (e : string) (w : World) (uid : string)
    (u : User) :
  user_findUnique e (store w) = Some (uid, u) →
  let t := generateTokens env uid (clock w) in
  let reset :=
    Jwt.sign uid "password-reset" (JWT_SECRET env) (hours 1) (clock w) in
  Jwt.signing_key (accessToken t) = Some (JWT_SECRET env)
  ∧ Jwt.signing_key (refreshToken t) = Some (JWT_REFRESH_SECRET env)
  ∧ Jwt.signing_key reset = Some (JWT_SECRET env)
  ∧ (∃ id row,
       passwordResets
         (store (run (AuthController.forgotPassword env e) w).2) !! id
         = Some row
       ∧ pr_token row = reset)
  ∧ (∀ now id, authenticate env reset now ≠ inr id)
  ∧ (∀ pw w2,
       (run (AuthController.resetPassword env (accessToken t) pw) w2).1
       = Raised (AppError "Invalid reset token" 400)
       ∨ (run (AuthController.resetPassword env (accessToken t) pw) w2).1
         = Raised (AppError "Invalid or expired reset token" 400)).
Proof.
  intros Hu. cbn zeta. repeat split.
  - rewrite run_forgotPassword, Hu. cbn.
    eexists _, _. split; [apply lookup_insert_eq|done].
  - intros now id. unfold authenticate, Jwt.sign, Jwt.verify.
    repeat case_decide; done.
  - intros pw w2. rewrite run_resetPassword.
    unfold generateTokens, Jwt.sign, Jwt.verify. cbn [accessToken].
    repeat case_decide; auto; done.
Qed.

Lemma signing_keys_example :
  Jwt.signing_key Scenario.ann_reset = Some "access-secret"
  ∧ ∃ id row,
      passwordResets (store Scenario.reset_requested) !! id = Some row
      ∧ pr_token row = Scenario.ann_reset.
Proof.
  destruct (signing_keys Scenario.env "ann@example.com"
              (Scenario.later 60000 Scenario.registered) "0"
              {| email := "ann@example.com";
                 password := Bcrypt 10 "correct horse";
                 name := "Ann"; lastLoginAt := None; deletedAt := None |})
    as (_ & _ & Hk & Hrow & _).
  - vm_compute. reflexivity.
  - split; [exact Hk | exact Hrow].
Defined.

(** ** Password reset *)






(** C5, as stated, fails: the lookup is an operation of its own, served
    before the transaction.  Two redemptions of Ann's reset credential whose
    lookups are both served before either transaction both succeed, and the
    password is that of the second. *)
Lemma reset_lookup_outside_transaction :
  let w := Scenario.later 1000 Scenario.reset_requested in
  let r := interleave
             [First; First; Second; Second; First; Second; First; Second]
             (AuthController.resetPassword Scenario.env Scenario.ann_reset
                "first password")
             (AuthController.resetPassword Scenario.env Scenario.ann_reset
                "second password") w in
  outcome r.1.1
  = Some (Returned (json 200
            (DataMessage "Password has been reset successfully.") (clock w)))
  ∧ outcome r.1.2
    = Some (Returned (json 200
              (DataMessage "Password has been reset successfully.") (clock w)))
  ∧ password <$> users (store r.2) !! "0"
    = Some (Bcrypt 10 "second password").
Proof. vm_compute. repeat split. Qed.

(** C5, as the code has it. The two writes of a redemption, the new
    password hash and the used flag, are one transaction: either the row to
    mark is gone and nothing is written, or both writes are applied.  The
    lookup precedes the transaction.  A redemption run alone that fails
    leaves the database as it was, and one that succeeds leaves it with
    both writes applied. *)
Theorem reset_writes_atomic (env : Env) (tok : Credential) (pw : string)
    (w : World) :
  (∀ (uid id : string) (d : UserData),
     let qs := [UserUpdate uid d; PasswordResetUpdate id true] in
     (passwordResets (store w) !! id = None
      ∧ perform (Transaction qs) w = (inl (PrismaError "P2025"), w))
     ∨ (∃ row,
          passwordResets (store w) !! id = Some row
          ∧ perform (Transaction qs) w
            = (inr (),
               with_store w
                 (with_passwordResets (user_update uid d (store w))
                    (<[id := {| pr_token := pr_token row;
                                pr_userId := pr_userId row;
                                pr_expiresAt := pr_expiresAt row;
                                pr_used := true |}]>
                       (passwordResets (store w)))))))
  ∧ (∀ x, (run (AuthController.resetPassword env tok pw) w).1 = Raised x →
          (run (AuthController.resetPassword env tok pw) w).2 = w)
  ∧ (∀ res,
       (run (AuthController.resetPassword env tok pw) w).1 = Returned res →
       ∃ payload id row,
         Jwt.verify tok (JWT_SECRET env) (clock w) = Some payload
         ∧ passwordReset_findFirst tok (Jwt.userId payload) (clock w)
             (store w) = Some (id, row)
         ∧ (run (AuthController.resetPassword env tok pw) w).2
           = with_store w
               (with_passwordResets
                  (user_update (Jwt.userId payload)
                     {| set_password := Some (bcrypt_hash pw 10);
                        set_lastLoginAt := None |} (store w))
                  (<[id := {| pr_token := pr_token row;
                              pr_userId := pr_userId row;
                              pr_expiresAt := pr_expiresAt row;
                              pr_used := true |}]>
                     (passwordResets (store w))))).
Proof.
  split; [|split].
  - intros uid id d qs. subst qs. cbn [perform].
    destruct (passwordResets (store w) !! id) as [row|] eqn:Hrow.
    + right. exists row. split; [done|].
      by rewrite (transaction_reset_found _ _ _ _ _ Hrow).
    + left. split; [done|].
      unfold transaction. cbn [writes write].
      unfold passwordReset_update, update.
      cbn [user_update with_users passwordResets]. by rewrite Hrow.
  - intros x. rewrite run_resetPassword.
    destruct (Jwt.verify _ _ _) as [payload|]; [|done].
    case_decide; [done|].
    destruct (passwordReset_findFirst _ _ _ _) as [found|]; [|done].
    by destruct (transaction _ _).
  - intros res. rewrite run_resetPassword.
    destruct (Jwt.verify _ _ _) as [payload|]; [|done].
    case_decide; [done|].
    destruct (passwordReset_findFirst _ _ _ _) as [[id row]|] eqn:Hfind;
      [|done].
    pose proof (passwordReset_findFirst_Some _ _ _ _ _ _ Hfind) as (Hrow & _).
    cbn [fst]. rewrite (transaction_reset_found _ _ _ _ _ Hrow).
    intros _. by exists payload, id, row.
Qed.

Lemma reset_writes_atomic_example :
  (run (AuthController.resetPassword Scenario.env (Jwt.Malformed "garbage")
          "new password") Scenario.reset_requested).2
  = Scenario.reset_requested.
Proof.
  apply (proj1 (proj2 (reset_writes_atomic Scenario.env
                         (Jwt.Malformed "garbage") "new password"
                         Scenario.reset_requested))
           (AppError "Invalid or expired reset token" 400)).
  vm_compute. reflexivity.
Defined.

(** ** Rotation under concurrency *)

(** C1, as stated, fails: the update of a rotation is addressed by the id
    of the row and does not test the token the row holds.  Two rotations
    that present Ann's refresh credential and whose lookups are both served
    before either update both succeed; the row ends with the credential of
    the second, and the credential returned to the first is in no row. *)
Lemma refresh_race_both_succeed :
  let w := Scenario.later 5000 Scenario.registered in
  let r := interleave
             [First; First; Second; Second; Tick 1000; First; First;
              Tick 1000; Second; Second; First; Second]
             (AuthController.refreshToken Scenario.env Scenario.ann_refresh)
             (AuthController.refreshToken Scenario.env Scenario.ann_refresh)
             w in
  let t1 := generateTokens Scenario.env "0" (clock w + 1000) in
  let t2 := generateTokens Scenario.env "0" (clock w + 2000) in
  outcome r.1.1
  = Some (Returned (json 200 (DataTokens (accessToken t1) (refreshToken t1))
                      (clock w + 2000)))
  ∧ outcome r.1.2
    = Some (Returned (json 200 (DataTokens (accessToken t2) (refreshToken t2))
                        (clock w + 2000)))
  ∧ refreshToken t1 ≠ refreshToken t2
  ∧ rt_token <$> refreshTokens (store r.2) !! "0" = Some (refreshToken t2)
  ∧ size (refreshTokens (store r.2)) = 1%nat.
Proof. vm_compute. repeat split. discriminate. Qed.

(** C1, as the code has it. After a presented refresh credential passes
    [verifyRefreshToken] and the lookup finds its row, the new pair is
    written by an update addressed by the id of that row; the update
    succeeds whatever token the row holds when it is served.  Run alone on a
    database where one unexpired row of the principal carries the
    credential, the rotation returns the new pair and leaves that row with
    the new refresh credential; when the new credential differs from the
    presented one, a later rotation presenting the old credential on that
    database fails with 'Invalid refresh token' (401). *)
Theorem refresh_rotation_by_id (env : Env) (tok : Credential) (w : World)
    (payload : Jwt.Claims) (id : string) (row : RefreshToken) :
  verifyRefreshToken env tok (clock w) = Some payload →
  refreshTokens (store w) !! id = Some row →
  rt_token row = tok →
  rt_userId row = Jwt.userId payload →
  clock w < rt_expiresAt row →
  (∀ id' row',
     refreshTokens (store w) !! id' = Some row' → rt_token row' = tok →
     id' = id) →
  let t := generateTokens env (Jwt.userId payload) (clock w) in
  let r := run (AuthController.refreshToken env tok) w in
  let new := {| rt_token := refreshToken t; rt_userId := rt_userId row;
                rt_expiresAt := clock w + days 7;
                rt_createdAt := rt_createdAt row |} in
  r.1 = Returned (json 200 (DataTokens (accessToken t) (refreshToken t))
                    (clock w))
  ∧ refreshTokens (store r.2) = <[id := new]> (refreshTokens (store w))
  ∧ (∀ (w1 : World) (held : RefreshToken) (tok' : Credential) (ex : Time),
       refreshTokens (store w1) !! id = Some held →
       ∃ written s,
         perform (RefreshTokenUpdate id tok' ex) w1
         = (inr written, with_store w1 s)
         ∧ refreshTokens s !! id = Some written
         ∧ rt_token written = tok')
  ∧ (refreshToken t ≠ tok →
     ∀ w2 : World,
       refreshTokens (store w2) = refreshTokens (store r.2) →
       run (AuthController.refreshToken env tok) w2
       = (Raised (AppError "Invalid refresh token" 401), w2)).
Proof.
  intros Hv Hrow Htok Huid Hexp Huniq t r new.
  assert (refreshToken_findFirst tok (Jwt.userId payload) (clock w) (store w)
          = Some (id, row)) as Hfind.
  { apply findFirst_unique; [done| |].
    - rewrite !bool_decide_eq_true_2; done.
    - intros id' row' Hrow' Hp.
      repeat (apply andb_prop in Hp as [Hp ?]).
      apply bool_decide_eq_true in Hp. eauto. }
  assert (r = (Returned (json 200
                 (DataTokens (accessToken t) (refreshToken t)) (clock w)),
               with_store w
                 (with_refreshTokens (store w)
                    (<[id := new]> (refreshTokens (store w)))))) as ->.
  { subst r. rewrite run_refreshToken, Hv, Hfind. cbn zeta. cbn [fst].
    by rewrite (refreshToken_update_found _ _ _ _ _ Hrow). }
  cbn [fst snd store with_store with_refreshTokens refreshTokens].
  split; [done|]. split; [done|]. split.
  { intros w1 held tok' ex Hheld. cbn [perform].
    rewrite (refreshToken_update_found _ _ _ _ _ Hheld).
    eexists _, _. split; [reflexivity|]. cbn.
    by rewrite lookup_insert_eq. }
  intros Hne w2 Hw2. rewrite run_refreshToken.
  destruct (verifyRefreshToken env tok (clock w2)) as [payload2|]; [|done].
  unfold refreshToken_findFirst.
  rewrite (findFirst_None_intro _ (refreshTokens (store w2))); [done|].
  intros id' row' Hrow'. rewrite Hw2 in Hrow'.
  destruct (decide (rt_token row' = tok)) as [Ht|Ht].
  - destruct (decide (id' = id)) as [->|Hid].
    + rewrite lookup_insert_eq in Hrow'. by simplify_eq.
    + rewrite lookup_insert_ne in Hrow' by done.
      by specialize (Huniq _ _ Hrow' Ht).
  - by rewrite (bool_decide_eq_false_2 _ Ht).
Qed.

Lemma refresh_rotation_by_id_example :
  let w := Scenario.later 5000 Scenario.registered in
  let t := generateTokens Scenario.env "0" (clock w) in
  let r := run (AuthController.refreshToken Scenario.env Scenario.ann_refresh)
             w in
  r.1 = Returned (json 200 (DataTokens (accessToken t) (refreshToken t))
                    (clock w))
  ∧ run (AuthController.refreshToken Scenario.env Scenario.ann_refresh) r.2
    = (Raised (AppError "Invalid refresh token" 401), r.2).
Proof.
  intros w t r.
  destruct (refresh_rotation_by_id Scenario.env Scenario.ann_refresh w
              {| Jwt.userId := "0"; Jwt.type := "refresh";
                 Jwt.iat := 1700000000; Jwt.exp := 1700604800 |}
              "0"
              {| rt_token := Scenario.ann_refresh; rt_userId := "0";
                 rt_expiresAt := 1700604800000;
                 rt_createdAt := 1700000000000 |})
    as (H1 & _ & _ & H4);
    try (vm_compute; reflexivity).
  - intros id' row' Hrow' _.
    assert (refreshTokens (store w)
            = {["0" := {| rt_token := Scenario.ann_refresh; rt_userId := "0";
                          rt_expiresAt := 1700604800000;
                          rt_createdAt := 1700000000000 |}]}) as Hm
      by (vm_compute; reflexivity).
    rewrite Hm in Hrow'. by apply lookup_singleton_Some in Hrow' as [-> _].
  - split; [exact H1|]. apply H4; [|reflexivity].
    vm_compute. discriminate.
Defined.

(** ** One refresh record per principal *)

Section OneRecord.
Implicit Types (m : gmap string RefreshToken) (s : Store).

Lemma at_most_one_insert_fresh uid uid' id row m :
  m !! id = None → rt_userId row = uid →
  (uid' = uid → ∀ id' row', m !! id' = Some row' → rt_userId row' ≠ uid) →
  at_most_one uid' m → at_most_one uid' (<[id := row]> m).
Proof.
  intros Hid Hrow Hnone Hm id1 id2 r1 r2 H1 H2 Hu1 Hu2.
  destruct (decide (id1 = id)) as [->|Hn1];
    destruct (decide (id2 = id)) as [->|Hn2]; [done| | |].
  - rewrite lookup_insert_eq in H1. rewrite lookup_insert_ne in H2 by done.
    injection H1 as ->.
    destruct (Hnone (eq_trans (eq_sym Hu1) Hrow) _ _ H2). congruence.
  - rewrite lookup_insert_eq in H2. rewrite lookup_insert_ne in H1 by done.
    injection H2 as ->.
    destruct (Hnone (eq_trans (eq_sym Hu2) Hrow) _ _ H1). congruence.
  - rewrite lookup_insert_ne in H1, H2 by done. eauto.
Qed.

Lemma at_most_one_deleteMany uid p m :
  at_most_one uid m → at_most_one uid (deleteMany p m).
Proof.
  intros Hm id1 id2 r1 r2 H1 H2.
  apply deleteMany_lookup in H1 as [H1 _], H2 as [H2 _]. eauto.
Qed.

Lemma at_most_one_update uid id old new m :
  m !! id = Some old → rt_userId new = rt_userId old →
  at_most_one uid m → at_most_one uid (<[id := new]> m).
Proof.
  intros Hold Hsame Hm id1 id2 r1 r2 H1 H2 Hu1 Hu2.
  destruct (decide (id1 = id)) as [->|Hn1];
    destruct (decide (id2 = id)) as [->|Hn2]; [done| | |].
  - rewrite lookup_insert_eq in H1. rewrite lookup_insert_ne in H2 by done.
    simplify_eq. apply (Hm _ _ _ _ Hold H2); congruence.
  - rewrite lookup_insert_eq in H2. rewrite lookup_insert_ne in H1 by done.
    simplify_eq. apply (Hm _ _ _ _ H1 Hold); congruence.
  - rewrite lookup_insert_ne in H1, H2 by done. eauto.
Qed.

Lemma deleteMany_none uid m id row :
  deleteMany (λ r, bool_decide (rt_userId r = uid)) m !! id = Some row →
  rt_userId row ≠ uid.
Proof.
  intros H. apply deleteMany_lookup in H as [_ H].
  by apply bool_decide_eq_false in H.
Qed.

Lemma updateWhere_is_Some {A} id (p : A → bool) f (m : gmap string A) k :
  is_Some (m !! k) → is_Some (updateWhere id p f m !! k).
Proof.
  intros Hk. unfold updateWhere.
  destruct (m !! id) as [row|] eqn:Hid; [|done].
  destruct (p row); [|done].
  destruct (decide (k = id)) as [->|Hne].
  - rewrite lookup_insert_eq. by eexists.
  - by rewrite lookup_insert_ne.
Qed.

Lemma user_findUnique_Some e s uid u :
  user_findUnique e s = Some (uid, u) →
  users s !! uid = Some u ∧ email u = e ∧ deletedAt u = None.
Proof.
  intros H. apply findFirst_Some in H as [Hu Hp]. split; [done|].
  apply andb_prop in Hp as [He Hl].
  by apply bool_decide_eq_true in He, Hl.
Qed.

Lemma user_create_Some e pw n s uid u s' :
  user_create e pw n s = inr ((uid, u), s') →
  users s !! uid = None
  ∧ users s' = <[uid := u]> (users s)
  ∧ refreshTokens s' = refreshTokens s
  ∧ passwordResets s' = passwordResets s.
Proof.
  unfold user_create. destruct (findFirst _ _); [done|].
  cbn. intros [= <- <- <-]. cbn.
  repeat split. apply not_elem_of_dom, is_fresh.
Qed.

End OneRecord.

(** C2, as stated, fails: [login] replaces the rows of the principal by two
    operations, a [deleteMany] and a [create], that are not one transaction.
    When two logins of Ann are in flight and both deletions are served
    before either insertion, both logins succeed and two rows of Ann
    remain. *)
Lemma concurrent_logins_leave_two_records :
  let w := Scenario.later 5000 Scenario.registered in
  let r := interleave
             [First; First; First; Tick 1000; Second; Second; Second;
              First; First; First; First; First;
              Second; Second; Second; Second; Second]
             (AuthController.login Scenario.env "ann@example.com"
                "correct horse")
             (AuthController.login Scenario.env "ann@example.com"
                "correct horse") w in
  (status <$> (Scenario.returned <$> outcome r.1.1)) = Some 200
  ∧ (status <$> (Scenario.returned <$> outcome r.1.2)) = Some 200
  ∧ rt_userId <$> refreshTokens (store r.2) !! "0" = Some "0"
  ∧ rt_userId <$> refreshTokens (store r.2) !! "1" = Some "0"
  ∧ ¬ at_most_one "0" (refreshTokens (store r.2)).
Proof.
  intros w r.
  assert (∃ r1 r2,
            refreshTokens (store r.2) !! "0" = Some r1
            ∧ refreshTokens (store r.2) !! "1" = Some r2
            ∧ rt_userId r1 = "0" ∧ rt_userId r2 = "0") as (r1 & r2 & H).
  { eexists _, _. vm_compute. repeat split. }
  destruct H as (H1 & H2 & Hu1 & Hu2).
  split; [vm_compute; reflexivity|]. split; [vm_compute; reflexivity|].
  split; [by rewrite H1; cbn; rewrite Hu1|].
  split; [by rewrite H2; cbn; rewrite Hu2|].
  intros Hone. by specialize (Hone _ _ _ _ H1 H2 Hu1 Hu2).
Qed.

(** C2, as the code has it. [login] deletes the refresh rows of the
    principal and then inserts one, as two operations; [register] only
    inserts, for a principal that did not exist.  Run alone, a successful
    [login] leaves exactly one row for its principal, however many there
    were; a successful [register] leaves exactly one row for the principal
    it created, when every earlier row belongs to an existing user; and
    every handler run alone keeps the database such that no principal has
    two rows. *)
Theorem one_record_when_alone (env : Env) (w : World) :
  (∀ e pw res w',
     run (AuthController.login env e pw) w = (Returned res, w') →
     ∃ uid u,
       user_findUnique e (store w) = Some (uid, u)
       ∧ exactly_one uid (refreshTokens (store w')))
  ∧ (∀ e pw n res w',
       referential (store w) →
       run (AuthController.register env e pw n) w = (Returned res, w') →
       ∃ uid u,
         users (store w) !! uid = None
         ∧ users (store w') !! uid = Some u
         ∧ exactly_one uid (refreshTokens (store w')))
  ∧ (∀ p o w',
       Handler env p → run p w = (o, w') →
       referential (store w) →
       (∀ uid, at_most_one uid (refreshTokens (store w))) →
       referential (store w')
       ∧ ∀ uid, at_most_one uid (refreshTokens (store w'))).
Proof.
  split; [|split].
  - intros e pw res w'. rewrite run_login.
    destruct (user_findUnique e (store w)) as [[uid u]|] eqn:Hu; [|done].
    destruct (bcrypt_compare _ _); [|done].
    cbn zeta. intros [= _ <-]. exists uid, u. split; [done|].
    cbn. split.
    + eexists _, _. split; [apply lookup_insert_eq|done].
    + intros id1 id2 r1 r2 H1 H2 Hu1 Hu2.
      destruct (decide (id1 = fresh (dom (deleteMany
                  (λ r, bool_decide (rt_userId r = uid))
                  (refreshTokens (store w)))))) as [->|Hn1].
      * destruct (decide (id2 = fresh (dom (deleteMany
                    (λ r, bool_decide (rt_userId r = uid))
                    (refreshTokens (store w)))))) as [->|Hn2]; [done|].
        rewrite lookup_insert_ne in H2 by done.
        by apply deleteMany_none in H2.
      * rewrite lookup_insert_ne in H1 by done.
        by apply deleteMany_none in H1.
  - intros e pw n res w' Href. rewrite run_register.
    destruct (user_findUnique e (store w)); [done|].
    destruct (user_create _ _ _ _) as [x|[[uid u] s1]] eqn:Hc; [done|].
    apply user_create_Some in Hc as (Hnew & Husers & Hrt & _).
    cbn zeta. intros [= _ <-]. exists uid, u.
    split; [done|]. cbn. rewrite Husers, Hrt.
    split; [apply lookup_insert_eq|]. split.
    + eexists _, _. split; [apply lookup_insert_eq|done].
    + apply (at_most_one_insert_fresh uid); [apply not_elem_of_dom, is_fresh|done| |].
      * intros _ id' row' Hrow' Heq. apply Href in Hrow' as [? Hx].
        rewrite Heq in Hx. congruence.
      * intros id1 id2 r1 r2 H1 H2 Hu1 Hu2.
        apply Href in H1 as [? Hx]. rewrite Hu1 in Hx. congruence.
  - intros p o w' Hp Hrun Href Hone.
    destruct Hp as [e pw n|e pw|tok|user|e|tok pw].
    + rewrite run_register in Hrun.
      destruct (user_findUnique e (store w)); [by simplify_eq|].
      destruct (user_create _ _ _ _) as [x|[[uid u] s1]] eqn:Hc;
        [by simplify_eq|].
      apply user_create_Some in Hc as (Hnew & Husers & Hrt & _).
      cbn zeta in Hrun. injection Hrun as _ <-. cbn. rewrite Hrt. split.
      * intros id row. cbn. rewrite Husers.
        destruct (decide (id = fresh (dom (refreshTokens (store w)))))
          as [->|Hne].
        -- rewrite lookup_insert_eq. intros [= <-]. cbn.
           rewrite lookup_insert_eq. by eexists.
        -- rewrite lookup_insert_ne by done. intros Hrow.
           apply Href in Hrow as [x Hx].
           destruct (decide (rt_userId row = uid)) as [Heq|Hu];
             [rewrite Heq, lookup_insert_eq; by eexists|].
           rewrite lookup_insert_ne by done. by eexists.
      * intros uid'.
        apply (at_most_one_insert_fresh uid);
          [apply not_elem_of_dom, is_fresh|done| |done].
        intros _ id' row' Hrow' Heq. apply Href in Hrow' as [? Hx].
        rewrite Heq in Hx. congruence.
    + rewrite run_login in Hrun.
      destruct (user_findUnique e (store w)) as [[uid u]|] eqn:Hu;
        [|by simplify_eq].
      destruct (bcrypt_compare _ _); [|by simplify_eq].
      apply user_findUnique_Some in Hu as (Hu & _).
      cbn zeta in Hrun. injection Hrun as _ <-. cbn. split.
      * intros id row. cbn. intros Hrow.
        apply updateWhere_is_Some.
        destruct (decide (id = fresh (dom (deleteMany
                    (λ r, bool_decide (rt_userId r = uid))
                    (refreshTokens (store w)))))) as [->|Hne].
        -- rewrite lookup_insert_eq in Hrow. injection Hrow as <-.
           by eexists.
        -- rewrite lookup_insert_ne in Hrow by done.
           apply deleteMany_lookup in Hrow as [Hrow _]. eauto.
      * intros uid'.
        apply (at_most_one_insert_fresh uid);
          [apply not_elem_of_dom, is_fresh|done| |].
        -- intros _ id' row'. apply deleteMany_none.
        -- by apply at_most_one_deleteMany.
    + rewrite run_refreshToken in Hrun.
      destruct (verifyRefreshToken _ _ _) as [payload|]; [|by simplify_eq].
      destruct (refreshToken_findFirst _ _ _ _) as [[id old]|] eqn:Hfind;
        [|by simplify_eq].
      apply refreshToken_findFirst_Some in Hfind as (Hold & _).
      cbn zeta in Hrun. cbn [fst] in Hrun.
      rewrite (refreshToken_update_found _ _ _ _ _ Hold) in Hrun.
      injection Hrun as _ <-. cbn. split.
      * intros id' row. cbn.
        destruct (decide (id' = id)) as [->|Hne].
        -- rewrite lookup_insert_eq. intros [= <-]. cbn. eauto.
        -- rewrite lookup_insert_ne by done. eauto.
      * intros uid'. by apply (at_most_one_update _ _ old).
    + rewrite run_logout in Hrun. injection Hrun as _ <-.
      destruct user as [uid|]; [|done]. cbn. split.
      * intros id row. cbn. intros Hrow.
        apply deleteMany_lookup in Hrow as [Hrow _]. eauto.
      * intros uid'. by apply at_most_one_deleteMany.
    + rewrite run_forgotPassword in Hrun. injection Hrun as _ <-.
      destruct (user_findUnique e (store w)); [|done]. done.
    + rewrite run_resetPassword in Hrun.
      destruct (Jwt.verify _ _ _) as [payload|]; [|by simplify_eq].
      case_decide; [by simplify_eq|].
      destruct (passwordReset_findFirst _ _ _ _) as [[id row]|] eqn:Hfind;
        [|by simplify_eq].
      apply passwordReset_findFirst_Some in Hfind as (Hrow & _).
      cbn [fst] in Hrun.
      rewrite (transaction_reset_found _ _ _ _ _ Hrow) in Hrun.
      injection Hrun as _ <-. cbn. split; [|done].
      intros id' row'. cbn. intros Hrow'.
      apply updateWhere_is_Some. eauto.
Qed.

Lemma one_record_when_alone_example :
  let twice :=
    (interleave
       [First; First; First; Tick 1000; Second; Second; Second;
        First; First; First; First; First;
        Second; Second; Second; Second; Second]
       (AuthController.login Scenario.env "ann@example.com" "correct horse")
       (AuthController.login Scenario.env "ann@example.com" "correct horse")
       (Scenario.later 5000 Scenario.registered)).2 in
  (∃ uid u,
     user_findUnique "ann@example.com" (store twice) = Some (uid, u)
     ∧ exactly_one uid
         (refreshTokens
            (store (run (AuthController.login Scenario.env "ann@example.com"
                           "correct horse") twice).2)))
  ∧ (∃ uid u,
       users (store Scenario.empty) !! uid = None
       ∧ users (store Scenario.registered) !! uid = Some u
       ∧ exactly_one uid (refreshTokens (store Scenario.registered)))
  ∧ (referential (store Scenario.registered)
     ∧ ∀ uid, at_most_one uid (refreshTokens (store Scenario.registered))).
Proof.
  intros twice.
  assert (referential (store Scenario.empty)) as Href
    by (intros id row Hrow; cbn in Hrow; by rewrite lookup_empty in Hrow).
  split; [|split].
  - apply (proj1 (one_record_when_alone Scenario.env twice)
             "ann@example.com" "correct horse"
             (Scenario.returned
                (run (AuthController.login Scenario.env "ann@example.com"
                        "correct horse") twice).1)).
    vm_compute. reflexivity.
  - apply (proj1 (proj2 (one_record_when_alone Scenario.env Scenario.empty))
             "ann@example.com" "correct horse" "Ann"
             (Scenario.returned
                (run (AuthController.register Scenario.env "ann@example.com"
                        "correct horse" "Ann") Scenario.empty).1));
      [exact Href|].
    vm_compute. reflexivity.
  - apply (proj2 (proj2 (one_record_when_alone Scenario.env Scenario.empty))
             (AuthController.register Scenario.env "ann@example.com"
                "correct horse" "Ann")
             (run (AuthController.register Scenario.env "ann@example.com"
                     "correct horse" "Ann") Scenario.empty).1);
      [apply handler_register|vm_compute; reflexivity|exact Href|].
    intros uid id1 id2 r1 r2 H1. cbn in H1. by rewrite lookup_empty in H1.
Defined.

(** * Further properties of the controller *)

(** ** Login and registration *)

(** X1. [login] fails in one way only: an unknown email and a wrong
    password both raise [AppError('Invalid email or password', 401)], and a
    failed login leaves the database as it was. *)
Theorem login_failure_uniform (env : Env) (e pw : string) (w : World) :
  (user_findUnique e (store w) = None
   ∨ (∃ uid u, user_findUnique e (store w) = Some (uid, u)
               ∧ bcrypt_compare pw (password u) = false)
   ↔ run (AuthController.login env e pw) w
     = (Raised (AppError "Invalid email or password" 401), w))
  ∧ (∀ x w', run (AuthController.login env e pw) w = (Raised x, w') →
             x = AppError "Invalid email or password" 401 ∧ w' = w).
Proof.
  rewrite run_login. split; [split|].
  - intros [->|(uid & u & -> & Hpw)]; [done|]. cbn [snd]. by rewrite Hpw.
  - destruct (user_findUnique e (store w)) as [[uid u]|]; [|by left].
    cbn [snd fst]. destruct (bcrypt_compare pw (password u)) eqn:Hpw;
      [done|]. intros _. right. by exists uid, u.
  - intros x w'. destruct (user_findUnique e (store w)) as [[uid u]|].
    + cbn [snd fst]. destruct (bcrypt_compare pw (password u)); [done|].
      by intros [= <- <-].
    + by intros [= <- <-].
Qed.

Lemma login_failure_uniform_example :
  run (AuthController.login Scenario.env "ann@example.com" "wrong")
    Scenario.registered
  = run (AuthController.login Scenario.env "bob@example.com" "wrong")
      Scenario.registered.
Proof.
  rewrite (proj1 (proj1 (login_failure_uniform Scenario.env "ann@example.com"
                           "wrong" Scenario.registered))).
  - rewrite (proj1 (proj1 (login_failure_uniform Scenario.env
                             "bob@example.com" "wrong" Scenario.registered)));
      [reflexivity|].
    left. vm_compute. reflexivity.
  - right. eexists _, _. vm_compute. split; reflexivity.
Defined.

Lemma user_findUnique_inserted e uid row s (m : gmap string User) :
  users s = <[uid := row]> m →
  email row = e → deletedAt row = None →
  (∀ uid' u', m !! uid' = Some u' → email u' = e → deletedAt u' = None →
              uid' = uid) →
  user_findUnique e s = Some (uid, row).
Proof.
  intros Hs He Hl Huniq. unfold user_findUnique. rewrite Hs.
  apply findFirst_unique.
  - apply lookup_insert_eq.
  - unfold live. by rewrite !bool_decide_eq_true_2.
  - intros uid' u' Hu' Hp. apply andb_prop in Hp as [He' Hl'].
    apply bool_decide_eq_true in He', Hl'.
    destruct (decide (uid' = uid)) as [|Hne]; [done|].
    rewrite lookup_insert_ne in Hu' by done. eauto.
Qed.

Lemma user_findUnique_None e s uid u :
  user_findUnique e s = None → users s !! uid = Some u → email u = e →
  deletedAt u ≠ None.
Proof.
  intros Hnone Hu He Hl.
  pose proof (findFirst_None _ _ _ _ Hnone Hu) as Hp.
  cbn beta in Hp. unfold live in Hp.
  by rewrite !bool_decide_eq_true_2 in Hp.
Qed.

Lemma user_create_inr e pw n s uid u s' :
  user_create e pw n s = inr ((uid, u), s') →
  u = {| email := e; password := pw; name := n; lastLoginAt := None;
         deletedAt := None |}
  ∧ ∀ uid' u', users s !! uid' = Some u' → email u' ≠ e.
Proof.
  unfold user_create.
  destruct (findFirst _ _) eqn:Hf; [done|]. cbn. intros [= <- <- <-].
  split; [done|]. intros uid' u' Hu' He.
  pose proof (findFirst_None _ _ _ _ Hf Hu') as Hp. cbn beta in Hp.
  by rewrite bool_decide_eq_true_2 in Hp.
Qed.

(** What a successful registration leaves behind. *)
Lemma register_returned env e pw n w res w1 :
  run (AuthController.register env e pw n) w = (Returned res, w1) →
  ∃ uid,
    let row := {| email := e; password := bcrypt_hash pw 10; name := n;
                  lastLoginAt := None; deletedAt := None |} in
    users (store w) !! uid = None
    ∧ users (store w1) = <[uid := row]> (users (store w))
    ∧ user_findUnique e (store w1) = Some (uid, row)
    ∧ passwordResets (store w1) = passwordResets (store w)
    ∧ clock w1 = clock w
    ∧ res = json 201
              (DataSession (formatUserResponse uid row)
                 (accessToken (generateTokens env uid (clock w)))
                 (refreshToken (generateTokens env uid (clock w))))
              (clock w).
Proof.
  rewrite run_register.
  destruct (user_findUnique e (store w)); [done|].
  destruct (user_create _ _ _ _) as [x|[[uid u] s1]] eqn:Hc; [done|].
  pose proof (user_create_inr _ _ _ _ _ _ _ Hc) as [-> Hfree].
  apply user_create_Some in Hc as (Hnew & Husers & _ & Hpr).
  cbn zeta. intros [= <- <-]. exists uid. cbn.
  split; [done|]. split; [done|]. split; [|done].
  eapply user_findUnique_inserted; [exact Husers|done|done|].
  intros uid' u' Hu' He. by destruct (Hfree _ _ Hu').
Qed.



(** X3. The email of a soft-deleted account is dead: when the users that
    carry the email have all been soft-deleted (and there is one), [login]
    is refused with 401, [forgotPassword] writes nothing, and [register]
    passes its own duplicate check but the insert fails on the unique email
    with Prisma's P2002; none of the three changes the database. *)
Theorem soft_deleted_email (env : Env) (e pw n : string) (w : World)
    (uid : string) (u : User) :
  users (store w) !! uid = Some u →
  email u = e →
  (∀ uid' u', users (store w) !! uid' = Some u' → email u' = e →
              deletedAt u' ≠ None) →
  run (AuthController.login env e pw) w
  = (Raised (AppError "Invalid email or password" 401), w)
  ∧ (run (AuthController.forgotPassword env e) w).2 = w
  ∧ run (AuthController.register env e pw n) w
    = (Raised (PrismaError "P2002"), w).
Proof.
  intros Hu He Hdel.
  assert (user_findUnique e (store w) = None) as Hnone.
  { apply findFirst_None_intro. intros uid' u' Hu'.
    destruct (decide (email u' = e)) as [He'|He'].
    - unfold live. rewrite (bool_decide_eq_false_2 (deletedAt u' = None));
        [by rewrite andb_false_r|eauto].
    - by rewrite (bool_decide_eq_false_2 _ He'). }
  rewrite run_login, run_forgotPassword, run_register, Hnone.
  split; [done|]. split; [done|].
  unfold user_create.
  destruct (findFirst_is_Some (λ u0, bool_decide (email u0 = e))
              (users (store w)) uid u Hu) as [found Hfound].
  { by rewrite bool_decide_eq_true_2. }
  by rewrite Hfound.
Qed.

(** ** Revocation *)

Lemma refreshToken_no_row env tok w :
  (∀ payload id row,
     verifyRefreshToken env tok (clock w) = Some payload →
     refreshTokens (store w) !! id = Some row →
     rt_token row = tok → rt_userId row = Jwt.userId payload →
     (rt_expiresAt row ≤ clock w)%Z) →
  run (AuthController.refreshToken env tok) w
  = (Raised (AppError "Invalid refresh token" 401), w).
Proof.
  intros Hno. rewrite run_refreshToken.
  destruct (verifyRefreshToken env tok (clock w)) as [payload|] eqn:Hv;
    [|done].
  destruct (refreshToken_findFirst _ _ _ _) as [[id row]|] eqn:Hf; [|done].
  apply refreshToken_findFirst_Some in Hf as (Hrow & Ht & Hu & Hex).
  specialize (Hno _ _ _ eq_refl Hrow Ht Hu). lia.
Qed.

(** X4. [logout] revokes: after it no refresh credential of the principal
    is accepted, whatever its signature and expiry; the rows of the other
    principals are kept; a second logout changes nothing; and without an
    authenticated user the call answers the same and touches nothing. *)
Theorem logout_revokes (env : Env) (uid : string) (w : World) :
  let w1 := (run (AuthController.logout (Some uid)) w).2 in
  (run (AuthController.logout (Some uid)) w).1
  = Returned (json 200 DataNull (clock w))
  ∧ (∀ (tok : Credential) (w2 : World),
       store w2 = store w1 →
       (∀ payload, verifyRefreshToken env tok (clock w2) = Some payload →
                   Jwt.userId payload = uid) →
       run (AuthController.refreshToken env tok) w2
       = (Raised (AppError "Invalid refresh token" 401), w2))
  ∧ (∀ id row,
       rt_userId row ≠ uid →
       refreshTokens (store w1) !! id = Some row
       ↔ refreshTokens (store w) !! id = Some row)
  ∧ (run (AuthController.logout (Some uid)) w1).2 = w1
  ∧ run (AuthController.logout None) w
    = (Returned (json 200 DataNull (clock w)), w).
Proof.
  cbn zeta. rewrite !run_logout. cbn [fst snd].
  split; [done|]. split; [|split; [|split; [|done]]].
  - intros tok w2 Hw2 Hp. apply refreshToken_no_row.
    intros payload id row Hv Hrow _ Hu. rewrite Hw2 in Hrow. cbn in Hrow.
    apply deleteMany_none in Hrow. rewrite (Hp _ Hv) in Hu. done.
  - intros id row Hne. cbn. rewrite deleteMany_lookup.
    rewrite bool_decide_eq_false. tauto.
  - unfold with_store, refreshToken_deleteMany, with_refreshTokens.
    cbn [store clock users refreshTokens passwordResets].
    f_equal. f_equal. apply map_eq. intros id. apply option_eq. intros row.
    rewrite !deleteMany_lookup. tauto.
Qed.

Lemma logout_revokes_example :
  run (AuthController.refreshToken Scenario.env Scenario.ann_refresh)
    (Scenario.later 5000
       (run (AuthController.logout (Some "0")) Scenario.registered).2)
  = (Raised (AppError "Invalid refresh token" 401),
     Scenario.later 5000
       (run (AuthController.logout (Some "0")) Scenario.registered).2).
Proof.
  apply (proj1 (proj2 (logout_revokes Scenario.env "0" Scenario.registered)));
    [reflexivity|].
  intros payload. vm_compute. by intros [= <-].
Defined.

Lemma soft_deleted_email_example :
  run (AuthController.register Scenario.env "ann@example.com" "new password"
         "Ann") Cases.ann_deleted
  = (Raised (PrismaError "P2002"), Cases.ann_deleted).
Proof.
  refine (proj2 (proj2 (soft_deleted_email Scenario.env "ann@example.com"
             "new password" "Ann" Cases.ann_deleted "0"
             {| email := "ann@example.com";
                password := Bcrypt 10 "correct horse";
                name := "Ann"; lastLoginAt := None;
                deletedAt := Some 1700003600000 |} _ _ _))).
  - vm_compute. reflexivity.
  - reflexivity.
  - intros uid' u' Hu' _. cbn in Hu'.
    apply lookup_singleton_Some in Hu' as [_ <-]. discriminate.
Defined.

Lemma refreshToken_accepts env tok w payload id row :
  verifyRefreshToken env tok (clock w) = Some payload →
  refreshTokens (store w) !! id = Some row →
  rt_token row = tok → rt_userId row = Jwt.userId payload →
  clock w < rt_expiresAt row →
  ∃ id' w',
    run (AuthController.refreshToken env tok) w
    = (Returned
         (json 200
            (DataTokens
               (accessToken (generateTokens env (Jwt.userId payload) (clock w)))
               (refreshToken (generateTokens env (Jwt.userId payload) (clock w))))
            (clock w)), w')
    ∧ is_Some (refreshTokens (store w) !! id').
Proof.
  intros Hv Hrow Ht Hu Hex. rewrite run_refreshToken, Hv.
  destruct (findFirst_is_Some
              (λ r, bool_decide (rt_token r = tok)
                    && bool_decide (rt_userId r = Jwt.userId payload)
                    && bool_decide (clock w < rt_expiresAt r))
              (refreshTokens (store w)) id row Hrow) as [[id' row'] Hf].
  { by rewrite !bool_decide_eq_true_2. }
  unfold refreshToken_findFirst. rewrite Hf.
  apply findFirst_Some in Hf as [Hrow' _].
  cbn zeta. cbn [fst]. rewrite (refreshToken_update_found _ _ _ _ _ Hrow').
  eexists id', _. split; [reflexivity|by eexists].
Qed.

Lemma verifyRefreshToken_issued env uid issued now :
  unexpired (refreshToken (generateTokens env uid issued)) now →
  ∃ payload,
    verifyRefreshToken env (refreshToken (generateTokens env uid issued)) now
    = Some payload
    ∧ Jwt.userId payload = uid.
Proof.
  unfold generateTokens, verifyRefreshToken, Jwt.sign, Jwt.verify, unexpired;
    cbn [refreshToken Jwt.exp Jwt.type Jwt.userId].
  intros H. repeat case_decide; try done; try lia. eauto.
Qed.

(** X5. A login revokes what was issued before: in the database a
    successful [login] leaves, every refresh credential of the principal
    other than the one the login returned is refused by [refreshToken]. *)
Theorem login_revokes_previous (env : Env) (e pw : string) (w w1 : World)
    (res : Response) :
  run (AuthController.login env e pw) w = (Returned res, w1) →
  ∃ user access new,
    data res = DataSession user access new
    ∧ ∀ (old : Credential) (w2 : World),
        store w2 = store w1 →
        old ≠ new →
        (∀ payload, verifyRefreshToken env old (clock w2) = Some payload →
                    Jwt.userId payload = ur_id user) →
        run (AuthController.refreshToken env old) w2
        = (Raised (AppError "Invalid refresh token" 401), w2).
Proof.
  rewrite run_login.
  destruct (user_findUnique e (store w)) as [[uid u]|]; [|done].
  cbn [fst snd]. destruct (bcrypt_compare _ _); [|done].
  cbn zeta. intros [= <- <-]. eexists _, _, _. split; [reflexivity|].
  intros old w2 Hw2 Hne Hp. apply refreshToken_no_row.
  intros payload id row Hv Hrow Ht Hu. rewrite Hw2 in Hrow. cbn in Hrow.
  rewrite (Hp _ Hv) in Hu. cbn in Hu.
  destruct (decide (id = fresh (dom (deleteMany
              (λ r, bool_decide (rt_userId r = uid))
              (refreshTokens (store w)))))) as [->|Hid].
  - rewrite lookup_insert_eq in Hrow. injection Hrow as <-.
    cbn in Ht. by destruct Hne.
  - rewrite lookup_insert_ne in Hrow by done.
    by apply deleteMany_none in Hrow.
Qed.

Lemma login_revokes_previous_example :
  ∃ user access new,
    data (Scenario.returned
            (run (AuthController.login Scenario.env "ann@example.com"
                    "correct horse")
               (Scenario.later 5000 Scenario.registered)).1)
    = DataSession user access new
    ∧ ur_id user = "0".
Proof.
  destruct (login_revokes_previous Scenario.env "ann@example.com"
              "correct horse" (Scenario.later 5000 Scenario.registered)
              (run (AuthController.login Scenario.env "ann@example.com"
                      "correct horse")
                 (Scenario.later 5000 Scenario.registered)).2
              (Scenario.returned
                 (run (AuthController.login Scenario.env "ann@example.com"
                         "correct horse")
                    (Scenario.later 5000 Scenario.registered)).1))
    as (user & access & new & Hd & _).
  - vm_compute. reflexivity.
  - exists user, access, new. split; [exact Hd|].
    vm_compute in Hd. by injection Hd as <- _ _.
Defined.

(** X6. What is issued can be rotated: the refresh credential returned by a
    successful [register], [login] or [refreshToken] is accepted by
    [refreshToken] in the database that call left, at any time before the
    signed expiry of the credential and before seven days have passed. *)
Theorem issued_credential_rotates (env : Env) (p : Prog Response)
    (w w1 : World) (res : Response) (tok : Credential) :
  Issuing env p →
  run p w = (Returned res, w1) →
  refresh_of res = Some tok →
  ∀ w2 : World,
    store w2 = store w1 →
    unexpired tok (clock w2) →
    clock w2 < clock w + days 7 →
    ∃ res2 w3,
      run (AuthController.refreshToken env tok) w2 = (Returned res2, w3)
      ∧ status res2 = 200.
Proof.
  intros Hp Hrun Htok w2 Hw2 Hun Hex.
  assert (∃ uid id row,
            tok = refreshToken (generateTokens env uid (clock w))
            ∧ refreshTokens (store w1) !! id = Some row
            ∧ rt_token row = tok ∧ rt_userId row = uid
            ∧ rt_expiresAt row = clock w + days 7)
    as (uid & id & row & -> & Hrow & Ht & Hu & Hrex).
  { destruct Hp as [e pw n|e pw|old].
    - rewrite run_register in Hrun.
      destruct (user_findUnique _ _); [done|].
      destruct (user_create _ _ _ _) as [x|[user s1]]; [done|].
      cbn zeta in Hrun. injection Hrun as <- <-.
      cbn in Htok. injection Htok as <-.
      eexists user.1, _, _. split; [done|]. cbn.
      split; [apply lookup_insert_eq|done].
    - rewrite run_login in Hrun.
      destruct (user_findUnique _ _) as [user|]; [|done].
      destruct (bcrypt_compare _ _); [|done].
      cbn zeta in Hrun. injection Hrun as <- <-.
      cbn in Htok. injection Htok as <-.
      eexists user.1, _, _. split; [done|]. cbn.
      split; [apply lookup_insert_eq|done].
    - rewrite run_refreshToken in Hrun.
      destruct (verifyRefreshToken _ _ _) as [payload|]; [|done].
      destruct (refreshToken_findFirst _ _ _ _) as [[id old']|] eqn:Hfind;
        [|done].
      apply refreshToken_findFirst_Some in Hfind as (Hold & _ & Huid & _).
      cbn zeta in Hrun. cbn [fst] in Hrun.
      rewrite (refreshToken_update_found _ _ _ _ _ Hold) in Hrun.
      injection Hrun as <- <-. cbn in Htok. injection Htok as <-.
      eexists (Jwt.userId payload), id, _. split; [done|]. cbn.
      split; [apply lookup_insert_eq|done]. }
  destruct (verifyRefreshToken_issued env uid (clock w) (clock w2) Hun)
    as (payload & Hv & Hpu).
  rewrite <- Hw2 in Hrow.
  destruct (refreshToken_accepts env _ w2 payload id row Hv Hrow Ht)
    as (id' & w3 & Hr & _); [congruence|lia|].
  eexists _, w3. split; [exact Hr|done].
Qed.

Lemma issued_credential_rotates_example :
  ∃ res2 w3,
    run (AuthController.refreshToken Scenario.env Scenario.ann_refresh)
      (Scenario.later 86400000 Scenario.registered)
    = (Returned res2, w3)
    ∧ status res2 = 200.
Proof.
  apply (issued_credential_rotates Scenario.env
           (AuthController.register Scenario.env "ann@example.com"
              "correct horse" "Ann")
           Scenario.empty Scenario.registered
           (Scenario.returned
              (run (AuthController.register Scenario.env "ann@example.com"
                      "correct horse" "Ann") Scenario.empty).1)
           Scenario.ann_refresh).
  - constructor.
  - vm_compute. reflexivity.
  - vm_compute. reflexivity.
  - reflexivity.
  - vm_compute. reflexivity.
  - vm_compute. reflexivity.
Defined.

(** X7. The lifetime of a rotation is the shorter of two clocks.  A
    successful [refreshToken] had a row carrying the presented credential
    whose stored expiry lay strictly after the clock, and a credential whose
    signed expiry lay after it; and whenever every row that carries the
    credential has a stored expiry at or before the clock, the call is
    refused with 401 even though the signature is still good. *)
Theorem rotation_needs_both_expiries (env : Env) (tok : Credential)
    (w : World) :
  (∀ res w',
     run (AuthController.refreshToken env tok) w = (Returned res, w') →
     unexpired tok (clock w)
     ∧ ∃ id row,
         refreshTokens (store w) !! id = Some row
         ∧ rt_token row = tok ∧ clock w < rt_expiresAt row)
  ∧ ((∀ id row,
        refreshTokens (store w) !! id = Some row → rt_token row = tok →
        (rt_expiresAt row ≤ clock w)%Z) →
     run (AuthController.refreshToken env tok) w
     = (Raised (AppError "Invalid refresh token" 401), w)).
Proof.
  split.
  - intros res w'. rewrite run_refreshToken.
    destruct (verifyRefreshToken env tok (clock w)) as [payload|] eqn:Hv;
      [|done].
    destruct (refreshToken_findFirst _ _ _ _) as [[id row]|] eqn:Hf; [|done].
    apply refreshToken_findFirst_Some in Hf as (Hrow & Ht & _ & Hex).
    intros _. split; [|eauto].
    unfold verifyRefreshToken, Jwt.verify in Hv. unfold unexpired.
    destruct tok as [c k|raw]; [|done].
    repeat case_decide; try done. lia.
  - intros Hall. apply refreshToken_no_row. eauto.
Qed.

Lemma rotation_needs_both_expiries_example :
  run (AuthController.refreshToken Scenario.env_1d Scenario.ann_refresh)
    (Scenario.later (days 7) Scenario.registered)
  = (Raised (AppError "Invalid refresh token" 401),
     Scenario.later (days 7) Scenario.registered).
Proof.
  apply (proj2 (rotation_needs_both_expiries Scenario.env_1d
                  Scenario.ann_refresh
                  (Scenario.later (days 7) Scenario.registered))).
  intros id row Hrow _.
  assert (refreshTokens (store (Scenario.later (days 7) Scenario.registered))
          = {["0" := {| rt_token := Scenario.ann_refresh; rt_userId := "0";
                        rt_expiresAt := 1700604800000;
                        rt_createdAt := 1700000000000 |}]}) as Hm
    by (vm_compute; reflexivity).
  rewrite Hm in Hrow. apply lookup_singleton_Some in Hrow as [_ <-].
  vm_compute. discriminate.
Defined.

(** X8. [refreshToken] never reads the user table: its outcome and the
    refresh rows it leaves are the same whatever the users are, so the
    credential of an account that was soft-deleted (or is absent) is
    rotated like any other. *)
Theorem rotation_ignores_users (env : Env) (tok : Credential) (w : World)
    (us : gmap string User) :
  let w_ := with_store w (with_users (store w) us) in
  (run (AuthController.refreshToken env tok) w_).1
  = (run (AuthController.refreshToken env tok) w).1
  ∧ refreshTokens (store (run (AuthController.refreshToken env tok) w_).2)
    = refreshTokens (store (run (AuthController.refreshToken env tok) w).2)
  ∧ users (store (run (AuthController.refreshToken env tok) w_).2) = us.
Proof.
  cbn zeta. rewrite !run_refreshToken.
  cbn [clock with_store store].
  destruct (verifyRefreshToken env tok (clock w)) as [payload|]; [|done].
  unfold refreshToken_findFirst. cbn [refreshTokens with_users].
  destruct (findFirst _ _) as [[id row]|] eqn:Hf; [|done].
  apply findFirst_Some in Hf as [Hrow _].
  cbn zeta. cbn [fst].
  rewrite (refreshToken_update_found id row _ _ (store w) Hrow).
  rewrite (refreshToken_update_found id row _ _ (with_users (store w) us) Hrow).
  done.
Qed.

(** ** Password reset *)

(** X9. A password reset ends no session and cancels no other reset: after
    any [resetPassword], successful or not, the refresh rows are what they
    were, and every reset row that carries another credential is what it
    was. *)
Theorem reset_leaves_sessions (env : Env) (tok : Credential) (pw : string)
    (w : World) :
  let w' := (run (AuthController.resetPassword env tok pw) w).2 in
  refreshTokens (store w') = refreshTokens (store w)
  ∧ ∀ id row,
      pr_token row ≠ tok →
      passwordResets (store w') !! id = Some row
      ↔ passwordResets (store w) !! id = Some row.
Proof.
  cbn zeta. rewrite run_resetPassword.
  destruct (Jwt.verify _ _ _) as [payload|]; [|done].
  case_decide; [done|].
  destruct (passwordReset_findFirst _ _ _ _) as [[id0 row0]|] eqn:Hf; [|done].
  apply passwordReset_findFirst_Some in Hf as (Hrow0 & Ht0 & _).
  cbn [fst]. rewrite (transaction_reset_found _ _ _ _ _ Hrow0).
  cbn. split; [done|]. intros id row Hne.
  destruct (decide (id = id0)) as [->|Hid].
  - rewrite lookup_insert_eq, Hrow0. split; intros [= <-]; by destruct Hne.
  - by rewrite lookup_insert_ne.
Qed.

Lemma reset_leaves_sessions_example :
  refreshTokens
    (store (run (AuthController.resetPassword Scenario.env Scenario.ann_reset
                   "new password")
              (Scenario.later 1000 Scenario.reset_requested)).2)
  = refreshTokens (store Scenario.registered).
Proof.
  rewrite (proj1 (reset_leaves_sessions Scenario.env Scenario.ann_reset
                    "new password"
                    (Scenario.later 1000 Scenario.reset_requested))).
  vm_compute. reflexivity.
Defined.



(** * Further properties of the middlewares *)

Section Guards.
Import AuthGuards.

(** X11. [authorize] lets a request pass exactly when its user carries at
    least one of the allowed roles.  A request whose user was attached by
    [authenticate] carries no roles, so after [authenticate] every
    [authorize], whatever roles it allows, answers 403; and so does an
    [authorize] that allows no role. *)
Theorem authorize_passes (allowed : list string) (user : option ReqUser) :
  (authorize allowed user = inr ()
   ↔ ∃ u rs role,
       user = Some u ∧ roles u = Some rs ∧ role ∈ allowed ∧ role ∈ rs)
  ∧ (∀ env tok now uid,
       authenticate env tok now = inr uid →
       authorize allowed (Some (attach uid))
       = inl (AppError "Insufficient permissions" 403))
  ∧ (∀ u, authorize [] (Some u)
          = inl (AppError "Insufficient permissions" 403)).
Proof.
  split; [|split].
  - unfold authorize. split.
    + destruct user as [u|]; [|done]. destruct (roles u) as [rs|] eqn:Hr;
        [|done].
      destruct (existsb _ allowed) eqn:Hex; [|done]. intros _.
      apply existsb_exists in Hex as (role & Hin & Hrole).
      apply bool_decide_eq_true in Hrole. apply list_elem_of_In in Hin.
      by exists u, rs, role.
    + intros (u & rs & role & -> & -> & Hin & Hrole).
      assert (existsb (λ role0, bool_decide (role0 ∈ rs)) allowed = true)
        as ->; [|done].
      apply existsb_exists. exists role.
      split; [by apply list_elem_of_In|by apply bool_decide_eq_true].
  - done.
  - intros u. unfold authorize. by destruct (roles u).
Qed.

Lemma authorize_passes_example :
  authorize ["admin"]
    (Some (attach "0"))
  = inl (AppError "Insufficient permissions" 403).
Proof.
  apply (proj1 (proj2 (authorize_passes ["admin"] None)) Scenario.env
           (accessToken (generateTokens Scenario.env "0" 1700000000000))
           1700000000000 "0").
  vm_compute. reflexivity.
Defined.

(** X12. [optionalAuth] and [authenticate] agree on who the user is:
    [optionalAuth] attaches a user exactly for the tokens that
    [authenticate] accepts, with the same id, and goes on without a user
    where [authenticate] raises. *)
Theorem optionalAuth_agrees (env : Env) (tok : Credential) (now : Time) :
  optionalAuth env (Some tok) now
  = match authenticate env tok now with
    | inr uid => Some (attach uid)
    | inl _ => None
    end.
Proof.
  unfold optionalAuth, authenticate.
  destruct (Jwt.verify tok (JWT_SECRET env) now) as [payload|]; [|done].
  repeat case_decide; done.
Qed.

(** X13. The two halves of a pair are not interchangeable, also when both
    secrets are configured to the same value: the refresh half never passes
    [authenticate] or [optionalAuth], and the access half never passes
    [verifyRefreshToken]. *)
Theorem kinds_not_interchangeable (env : Env) (uid : string)
    (issued now : Time) :
  let t := generateTokens env uid issued in
  (∀ uid', authenticate env (refreshToken t) now ≠ inr uid')
  ∧ optionalAuth env (Some (refreshToken t)) now = None
  ∧ verifyRefreshToken env (accessToken t) now = None.
Proof.
  cbn zeta.
  unfold generateTokens, authenticate, optionalAuth, verifyRefreshToken,
    Jwt.sign, Jwt.verify;
    cbn [accessToken refreshToken Jwt.exp Jwt.type Jwt.userId].
  repeat split; repeat case_decide; done.
Qed.

Lemma kinds_not_interchangeable_example :
  authenticate Scenario.env Scenario.ann_refresh 1700000000000 ≠ inr "0".
Proof.
  exact (proj1 (kinds_not_interchangeable Scenario.env "0" 1700000000000
                  1700000000000) "0").
Defined.

Lemma prefix_split (p h : string) :
  String.prefix p h = true →
  h = (p +:+ substring_from (String.length p) h)%string.
Proof.
  revert h. induction p as [|c p IH]; intros h; [done|].
  destruct h as [|c' h]; [done|]. cbn.
  destruct (Ascii.ascii_dec c c') as [->|]; [|done].
  intros Hp. change (String c' h
                    = String c' (p +:+ substring_from (String.length p) h)).
  f_equal. by apply IH.
Qed.

Lemma prefix_app (p t : string) : String.prefix p (p +:+ t) = true.
Proof.
  induction p as [|c p IH].
  - by destruct t.
  - change (String.prefix (String c p) (String c (p +:+ t)) = true).
    cbn. by destruct (Ascii.ascii_dec c c).
Qed.

(** X14. The bearer token is the header without its first seven
    characters, exactly when the header starts with 'Bearer ' (in this
    case, with one space); nothing is trimmed, so the token may be empty.  A
    missing header, another scheme or another case gives no token. *)
Theorem bearer_token (authHeader : option string) (t : string) :
  bearer authHeader = Some t ↔ authHeader = Some ("Bearer " +:+ t)%string.
Proof.
  unfold bearer. split.
  - destruct authHeader as [h|]; [|done].
    destruct (String.prefix "Bearer " h) eqn:Hp; [|done].
    intros [= <-]. f_equal. exact (prefix_split "Bearer " h Hp).
  - intros ->. by rewrite (prefix_app "Bearer " t).
Qed.

End Guards.

(** X15. The profile of a registered user.  The access credential returned
    by a successful [register] passes [authenticate] while it is unexpired,
    and [getMe] for the id it yields answers 200 with the user that the
    registration returned, leaving the database as it is; for a soft-deleted
    or absent id [getMe] raises 404. *)
Theorem register_then_getMe (env : Env) (e pw n : string) (w w1 : World)
    (res : Response) :
  run (AuthController.register env e pw n) w = (Returned res, w1) →
  (∃ user access refresh,
     data res = DataSession user access refresh
     ∧ ∀ w2 : World,
         store w2 = store w1 →
         unexpired access (clock w2) →
         authenticate env access (clock w2) = inr (ur_id user)
         ∧ Profile.getMe (ur_id user) w2
           = (Returned {| Profile.me_status := 200;
                          Profile.me_success := true;
                          Profile.me_data := user;
                          Profile.me_timestamp := clock w2 |}, w2))
  ∧ (∀ (uid : string) (w2 : World),
       (∀ u, users (store w2) !! uid = Some u → deletedAt u ≠ None) →
       Profile.getMe uid w2 = (Raised (AppError "User not found" 404), w2)).
Proof.
  intros Hreg. split.
  - apply register_returned in Hreg as (uid & _ & Hus & _ & _ & _ & ->).
    cbn zeta in Hus. eexists _, _, _. split; [reflexivity|].
    intros w2 Hw2 Hun. split.
    + revert Hun.
      unfold generateTokens, authenticate, Jwt.sign, Jwt.verify, unexpired;
        cbn [accessToken Jwt.exp Jwt.type Jwt.userId formatUserResponse
             ur_id].
      intros Hun. repeat case_decide; done || lia.
    + unfold Profile.getMe, Profile.user_findUnique_id.
      rewrite Hw2, Hus. cbn [formatUserResponse ur_id].
      by rewrite lookup_insert_eq.
  - intros uid w2 Hdel. unfold Profile.getMe, Profile.user_findUnique_id.
    destruct (users (store w2) !! uid) as [u|] eqn:Hu; [|done].
    unfold live. by rewrite (bool_decide_eq_false_2 _ (Hdel u eq_refl)).
Qed.

Lemma register_then_getMe_example :
  Profile.getMe "0" Cases.ann_deleted
  = (Raised (AppError "User not found" 404), Cases.ann_deleted).
Proof.
  apply (proj2 (register_then_getMe Scenario.env "ann@example.com"
                  "correct horse" "Ann" Scenario.empty Scenario.registered
                  (Scenario.returned
                     (run (AuthController.register Scenario.env
                             "ann@example.com" "correct horse" "Ann")
                        Scenario.empty).1)
                  ltac:(vm_compute; reflexivity))).
  intros u Hu. cbn in Hu. apply lookup_singleton_Some in Hu as [_ <-].
  discriminate.
Defined.

(** * Further properties of the Prisma service *)

Section SoftDeleteFacts.
Import SoftDelete.

Lemma softDeleteModels_decide (m : string) :
  m ∈ softDeleteModels ↔ m = "User" ∨ m = "Post" ∨ m = "Comment".
Proof. unfold softDeleteModels. rewrite !elem_of_cons, elem_of_nil. tauto. Qed.

Lemma on_find_skip p :
  action p ≠ "findUnique" → action p ≠ "findFirst" → on_find p = Some p.
Proof.
  intros H1 H2. unfold on_find. rewrite bool_decide_eq_false_2; [done|tauto].
Qed.

Lemma on_findMany_skip p : action p ≠ "findMany" → on_findMany p = Some p.
Proof. intros H. unfold on_findMany. by rewrite bool_decide_eq_false_2. Qed.

Lemma on_update_skip p : action p ≠ "update" → on_update p = Some p.
Proof. intros H. unfold on_update. by rewrite bool_decide_eq_false_2. Qed.

Lemma on_delete_skip now p : action p ≠ "delete" → on_delete now p = Some p.
Proof. intros H. unfold on_delete. by rewrite bool_decide_eq_false_2. Qed.

Lemma on_deleteMany_skip now p :
  action p ≠ "deleteMany" → on_deleteMany now p = Some p.
Proof. intros H. unfold on_deleteMany. by rewrite bool_decide_eq_false_2. Qed.

(** What each test leaves of the action and the model. *)
Lemma on_find_action p q :
  on_find p = Some q →
  model q = model p
  ∧ (action q = action p ∧ action p ≠ "findUnique"
     ∨ action q = "findFirst").
Proof.
  unfold on_find. case_bool_decide as Ha.
  - destruct (args p); [|done]. intros [= <-]. split; [done|]. by right.
  - intros [= <-]. split; [done|]. left. split; [done|tauto].
Qed.

Lemma on_findMany_action p q :
  on_findMany p = Some q → model q = model p ∧ action q = action p.
Proof.
  unfold on_findMany. case_bool_decide; [|by intros [= <-]].
  destruct (args p) as [a|]; [|done].
  destruct (args_where a) as [wh|]; [|by intros [= <-]].
  destruct (wh !! "deletedAt"); by intros [= <-].
Qed.

Lemma on_update_action p q :
  on_update p = Some q →
  model q = model p ∧ (action q = action p ∨ action q = "updateMany").
Proof.
  unfold on_update. case_bool_decide.
  - destruct (args p); [|done]. intros [= <-]. split; [done|]. by right.
  - intros [= <-]. split; [done|]. by left.
Qed.

Lemma on_delete_action now p q :
  on_delete now p = Some q →
  model q = model p
  ∧ (action q = action p ∧ action p ≠ "delete" ∨ action q = "update").
Proof.
  unfold on_delete. case_bool_decide.
  - destruct (args p); [|done]. intros [= <-]. split; [done|]. by right.
  - intros [= <-]. split; [done|]. by left.
Qed.

Lemma on_deleteMany_action now p q :
  on_deleteMany now p = Some q →
  model q = model p
  ∧ (action q = action p ∧ action p ≠ "deleteMany"
     ∨ action q = "updateMany").
Proof.
  unfold on_deleteMany. case_bool_decide.
  - destruct (args p); [|done]. intros [= <-]. split; [done|]. by right.
  - intros [= <-]. split; [done|]. by left.
Qed.

(** X16. No hard delete reaches a soft-delete model: for [User], [Post]
    and [Comment] the query handed to [next] never has the action [delete],
    [deleteMany] or [findUnique], and its model is unchanged.  A query on
    any other model, or without a model, is handed on as it is; and so is a
    query on a soft-delete model whose action is none of the six the
    middleware tests ([count], [create], [updateMany], ...), without a
    [deletedAt] filter. *)
Theorem middleware_no_hard_delete (now : Time) (p : Params) :
  (default "" (model p) ∉ softDeleteModels → middleware now p = Some p)
  ∧ (default "" (model p) ∈ softDeleteModels →
     ∀ q, middleware now p = Some q →
          action q ≠ "delete"
          ∧ action q ≠ "deleteMany"
          ∧ action q ≠ "findUnique"
          ∧ model q = model p)
  ∧ (action p ∉ ["findUnique"; "findFirst"; "findMany"; "update"; "delete";
                 "deleteMany"] →
     middleware now p = Some p).
Proof.
  unfold middleware. split; [|split].
  - intros Hm. by rewrite bool_decide_eq_false_2.
  - intros Hm q. rewrite bool_decide_eq_true_2 by done.
    destruct (on_find p) as [p1|] eqn:H1; [|done]. cbn.
    destruct (on_findMany p1) as [p2|] eqn:H2; [|done]. cbn.
    destruct (on_update p2) as [p3|] eqn:H3; [|done]. cbn.
    destruct (on_delete now p3) as [p4|] eqn:H4; [|done]. cbn.
    intros H5.
    apply on_find_action in H1 as [M1 A1].
    apply on_findMany_action in H2 as [M2 A2].
    apply on_update_action in H3 as [M3 A3].
    apply on_delete_action in H4 as [M4 A4].
    apply on_deleteMany_action in H5 as [M5 A5].
    split; [|split; [|split; [|congruence]]].
    + destruct A5 as [[A5 _]|A5]; [|by rewrite A5].
      destruct A4 as [[A4 N4]|A4]; [|by rewrite A5, A4]. congruence.
    + destruct A5 as [[A5 N5]|A5]; [|by rewrite A5]. congruence.
    + destruct A5 as [[A5 _]|A5]; [|by rewrite A5].
      destruct A4 as [[A4 _]|A4]; [|by rewrite A5, A4].
      destruct A3 as [A3|A3]; [|by rewrite A5, A4, A3].
      destruct A1 as [[A1 N1]|A1]; [|by rewrite A5, A4, A3, A2, A1].
      congruence.
  - intros Ha. rewrite !elem_of_cons, elem_of_nil in Ha.
    case_bool_decide; [|done].
    rewrite on_find_skip by tauto. cbn.
    rewrite on_findMany_skip by tauto. cbn.
    rewrite on_update_skip by tauto. cbn.
    rewrite on_delete_skip by tauto. cbn.
    apply on_deleteMany_skip. tauto.
Qed.

Lemma middleware_no_hard_delete_example :
  middleware 1700000000000
    {| model := Some "User"; action := "count"; args := None |}
  = Some {| model := Some "User"; action := "count"; args := None |}
  ∧ ∀ q,
      middleware 1700000000000
        {| model := Some "User"; action := "delete";
           args := Some {| args_where := Some {["id" := JStr "0"]};
                           args_data := None |} |} = Some q →
      action q ≠ "delete".
Proof.
  split.
  - apply (proj2 (proj2 (middleware_no_hard_delete 1700000000000
             {| model := Some "User"; action := "count"; args := None |}))).
    cbn. rewrite !elem_of_cons, elem_of_nil.
    intros [H|[H|[H|[H|[H|[H|H]]]]]]; done.
  - intros q Hq.
    apply (proj1 (proj2 (middleware_no_hard_delete 1700000000000
             {| model := Some "User"; action := "delete";
                args := Some {| args_where := Some {["id" := JStr "0"]};
                                args_data := None |} |}))); [|exact Hq].
    cbn. apply softDeleteModels_decide. by left.
Defined.

(** X17. What the middleware makes of each action on a soft-delete model.
    When the call has an argument object: [findUnique], [findFirst] and
    [update] get [deletedAt: null] whatever the caller asked for, so a
    caller cannot reach a soft-deleted row with them; [findMany] gets it
    only when the filter has no [deletedAt] of its own, so an explicit one
    is honoured; [delete] and [deleteMany] become updates that keep the
    filter as given, with no [deletedAt] test added, and whose [data] is
    the deletion time alone.  When the call has no argument object, as in
    [findMany()], each of these six actions makes the middleware throw, and
    no query is handed on. *)
Theorem middleware_rewrites (now : Time) (p : Params) :
  default "" (model p) ∈ softDeleteModels →
  (∀ a, args p = Some a →
     let forced :=
       Some {| args_where :=
                 Some (<["deletedAt" := JNull]> (default ∅ (args_where a)));
               args_data := args_data a |} in
     let stamped :=
       Some {| args_where := args_where a;
               args_data := Some {["deletedAt" := JDate now]} |} in
     (action p = "findUnique" ∨ action p = "findFirst" →
      middleware now p
      = Some {| model := model p; action := "findFirst"; args := forced |})
     ∧ (action p = "update" →
        middleware now p
        = Some {| model := model p; action := "updateMany";
                  args := forced |})
     ∧ (action p = "findMany" →
        ∃ wh,
          middleware now p
          = Some {| model := model p; action := "findMany";
                    args := Some {| args_where := Some wh;
                                    args_data := args_data a |} |}
          ∧ wh !! "deletedAt"
            = Some (default JNull (args_where a ≫= (.!! "deletedAt")))
          ∧ ∀ k, k ≠ "deletedAt" →
                 wh !! k = default ∅ (args_where a) !! k)
     ∧ (action p = "delete" →
        middleware now p
        = Some {| model := model p; action := "update"; args := stamped |})
     ∧ (action p = "deleteMany" →
        middleware now p
        = Some {| model := model p; action := "updateMany";
                  args := stamped |}))
  ∧ (args p = None →
     action p ∈ ["findUnique"; "findFirst"; "findMany"; "update"; "delete";
                 "deleteMany"] →
     middleware now p = None).
Proof.
  intros Hm. unfold middleware. rewrite bool_decide_eq_true_2 by done.
  split.
  - intros a Ha. cbv zeta.
    split; [|split; [|split; [|split]]]; intros Hact.
    + assert (on_find p
              = Some (set_where (not_deleted (args_where a)) a
                        (set_action "findFirst" p))) as ->
        by (unfold on_find; by rewrite bool_decide_eq_true_2, Ha).
      cbn. rewrite on_findMany_skip by done. cbn.
      rewrite on_update_skip by done. cbn.
      rewrite on_delete_skip by done. cbn.
      by rewrite on_deleteMany_skip.
    + rewrite on_find_skip by (by rewrite Hact). cbn.
      rewrite on_findMany_skip by (by rewrite Hact). cbn.
      assert (on_update p
              = Some (set_where (not_deleted (args_where a)) a
                        (set_action "updateMany" p))) as ->
        by (unfold on_update; by rewrite bool_decide_eq_true_2, Ha).
      cbn. rewrite on_delete_skip by done. cbn.
      by rewrite on_deleteMany_skip.
    + rewrite on_find_skip by (by rewrite Hact). cbn.
      assert (∃ wh,
                on_findMany p
                = Some {| model := model p; action := "findMany";
                          args := Some {| args_where := Some wh;
                                          args_data := args_data a |} |}
                ∧ wh !! "deletedAt"
                  = Some (default JNull (args_where a ≫= (.!! "deletedAt")))
                ∧ ∀ k, k ≠ "deletedAt" →
                       wh !! k = default ∅ (args_where a) !! k)
        as (wh & -> & Hd & Hk).
      { unfold on_findMany. rewrite bool_decide_eq_true_2, Ha by done.
        destruct p as [m act ar]. cbn in Ha, Hact. subst act ar.
        destruct a as [[wh|] d]; cbn.
        - destruct (wh !! "deletedAt") as [v|] eqn:Hv.
          + exists wh. by rewrite Hv.
          + eexists. split; [done|]. split; [apply lookup_insert_eq|].
            intros k Hk. by rewrite lookup_insert_ne.
        - eexists. split; [done|]. split; [apply lookup_singleton_eq|].
          intros k Hk. by rewrite lookup_singleton_ne. }
      exists wh. split; [|done]. cbn.
      rewrite on_update_skip by done. cbn.
      rewrite on_delete_skip by done. cbn.
      by rewrite on_deleteMany_skip.
    + rewrite on_find_skip by (by rewrite Hact). cbn.
      rewrite on_findMany_skip by (by rewrite Hact). cbn.
      rewrite on_update_skip by (by rewrite Hact). cbn.
      assert (on_delete now p
              = Some (set_data {["deletedAt" := JDate now]} a
                        (set_action "update" p))) as ->
        by (unfold on_delete; by rewrite bool_decide_eq_true_2, Ha).
      cbn. by rewrite on_deleteMany_skip.
    + rewrite on_find_skip by (by rewrite Hact). cbn.
      rewrite on_findMany_skip by (by rewrite Hact). cbn.
      rewrite on_update_skip by (by rewrite Hact). cbn.
      rewrite on_delete_skip by (by rewrite Hact). cbn.
      unfold on_deleteMany. by rewrite bool_decide_eq_true_2, Ha.
  - intros Ha Hact. rewrite !elem_of_cons, elem_of_nil in Hact.
    destruct Hact as [H|[H|[H|[H|[H|[H|[]]]]]]].
    + unfold on_find. rewrite bool_decide_eq_true_2 by tauto.
      by rewrite Ha.
    + unfold on_find. rewrite bool_decide_eq_true_2 by tauto.
      by rewrite Ha.
    + rewrite on_find_skip by (by rewrite H). cbn.
      unfold on_findMany. by rewrite bool_decide_eq_true_2, Ha.
    + rewrite on_find_skip by (by rewrite H). cbn.
      rewrite on_findMany_skip by (by rewrite H). cbn.
      unfold on_update. by rewrite bool_decide_eq_true_2, Ha.
    + rewrite on_find_skip by (by rewrite H). cbn.
      rewrite on_findMany_skip by (by rewrite H). cbn.
      rewrite on_update_skip by (by rewrite H). cbn.
      unfold on_delete. by rewrite bool_decide_eq_true_2, Ha.
    + rewrite on_find_skip by (by rewrite H). cbn.
      rewrite on_findMany_skip by (by rewrite H). cbn.
      rewrite on_update_skip by (by rewrite H). cbn.
      rewrite on_delete_skip by (by rewrite H). cbn.
      unfold on_deleteMany. by rewrite bool_decide_eq_true_2, Ha.
Qed.

Lemma middleware_rewrites_example :
  middleware 1700000000000
    {| model := Some "User"; action := "findFirst";
       args := Some {| args_where :=
                         Some {["deletedAt" := JDate 1699999999000]};
                       args_data := None |} |}
  = Some {| model := Some "User"; action := "findFirst";
            args := Some {| args_where := Some {["deletedAt" := JNull]};
                            args_data := None |} |}
  ∧ middleware 1700000000000
      {| model := Some "User"; action := "findMany"; args := None |}
    = None.
Proof.
  destruct (middleware_rewrites 1700000000000
              {| model := Some "User"; action := "findFirst";
                 args := Some {| args_where :=
                                   Some {["deletedAt" :=
                                            JDate 1699999999000]};
                                 args_data := None |} |}) as (H & _).
  { cbn. apply softDeleteModels_decide. by left. }
  destruct (H _ eq_refl) as (Hfind & _). cbn zeta in Hfind.
  split.
  - rewrite Hfind by (by right). cbn. by rewrite insert_singleton_eq.
  - apply (proj2 (middleware_rewrites 1700000000000
                    {| model := Some "User"; action := "findMany";
                       args := None |}
                    ltac:(cbn; apply softDeleteModels_decide; by left)));
      [reflexivity|].
    cbn. rewrite !elem_of_cons. tauto.
Defined.

End SoftDeleteFacts.

Section QueryHelperFacts.
Import PrismaQueryHelpers.

Lemma ceil_div_bounds (c : nat) (lim : Z) :
  (1 ≤ lim)%Z →
  ∃ n, ceil_div c lim = Finite n
       ∧ (n - 1) * lim < Z.of_nat c ∧ (Z.of_nat c ≤ n * lim)%Z.
Proof.
  intros Hl. unfold ceil_div. rewrite decide_False by lia.
  eexists. split; [done|].
  pose proof (Z.div_mod (- Z.of_nat c) lim ltac:(lia)) as Hdm.
  pose proof (Z.mod_pos_bound (- Z.of_nat c) lim ltac:(lia)) as Hm.
  nia.
Qed.

Lemma paginate_in_range {A} (rows : list A) (counted : nat) (pg lim : Z) :
  (1 ≤ pg)%Z → (1 ≤ lim)%Z →
  paginate rows counted (Some pg) (Some lim)
  = Some {| data := take (Z.to_nat lim)
                      (drop (Z.to_nat ((pg - 1) * lim)) rows);
            page := pg; limit := lim; total := counted;
            totalPages := ceil_div counted lim;
            hasNext := lt_num pg (ceil_div counted lim);
            hasPrev := bool_decide (1 < pg) |}.
Proof.
  intros Hp Hl. unfold paginate, findMany. cbn [from_option id].
  rewrite decide_False
    by (apply Z.le_ngt, Z.mul_nonneg_nonneg; lia).
  by rewrite decide_True by lia.
Qed.

(** X18. A page of [paginate], for a page number and a limit of at least
    one.  The data are the window of at most [limit] rows that starts after
    the pages before; [hasPrev] holds exactly from page two on; [hasNext]
    holds exactly when [page * limit] is below the count; and [totalPages]
    is the least number of pages that hold the count.  When the count is
    the number of rows that [findMany] sees, [hasNext] holds exactly when
    the next page has a row. *)
Theorem paginate_window {A} (rows : list A) (counted : nat) (pg lim : Z) :
  (1 ≤ pg)%Z → (1 ≤ lim)%Z →
  ∃ r,
    paginate rows counted (Some pg) (Some lim) = Some r
    ∧ data r = take (Z.to_nat lim) (drop (Z.to_nat ((pg - 1) * lim)) rows)
    ∧ (Z.of_nat (length (data r)) ≤ lim)%Z
    ∧ (hasPrev r = true ↔ 1 < pg)
    ∧ (hasNext r = true ↔ pg * lim < Z.of_nat counted)
    ∧ (∃ n, totalPages r = Finite n
            ∧ (n - 1) * lim < Z.of_nat counted ∧ (Z.of_nat counted ≤ n * lim)%Z)
    ∧ (counted = length rows →
       hasNext r = true ↔ page_data rows lim (pg + 1) ≠ []).
Proof.
  intros Hp Hl.
  destruct (ceil_div_bounds counted lim Hl) as (n & Hn & Hlo & Hhi).
  assert (lt_num pg (ceil_div counted lim) = true ↔ pg * lim < Z.of_nat counted)
    as Hnext.
  { rewrite Hn. cbn. rewrite bool_decide_eq_true. split; intros; nia. }
  eexists. split; [by apply paginate_in_range|].
  cbn [data hasPrev hasNext totalPages].
  split; [done|]. split; [rewrite length_take; lia|].
  split; [apply bool_decide_eq_true|]. split; [done|].
  split; [by exists n|].
  intros ->. rewrite Hnext. unfold page_data.
  rewrite paginate_in_range by lia.
  cbn [data]. replace (pg + 1 - 1) with pg by lia.
  split.
  - intros Hlt Hnil.
    apply (f_equal length) in Hnil. rewrite length_take, length_drop in Hnil.
    cbn in Hnil. nia.
  - intros Hne.
    destruct (decide (pg * lim < Z.of_nat (length rows))) as [|Hge]; [done|].
    destruct Hne. rewrite drop_ge; [apply take_nil|]. nia.
Qed.

Lemma paginate_window_example :
  ∃ r,
    paginate ["a"; "b"; "c"; "d"; "e"] 5 (Some 2) (Some 2) = Some r
    ∧ data r = ["c"; "d"] ∧ hasNext r = true ∧ hasPrev r = true
    ∧ totalPages r = Finite 3.
Proof.
  destruct (paginate_window ["a"; "b"; "c"; "d"; "e"] 5 2 2)
    as (r & Hr & Hd & _ & Hprev & Hnext & (n & Hn & Hlo & Hhi) & _);
    [lia|lia|].
  exists r. split; [exact Hr|]. split; [exact Hd|].
  split; [apply Hnext; lia|]. split; [apply Hprev; lia|].
  rewrite Hn. f_equal. lia.
Defined.

Lemma windows_concat {A} (rows : list A) (l k : nat) :
  mjoin ((λ i, take l (drop (i * l) rows)) <$> seq 0 k) = take (k * l) rows.
Proof.
  induction k as [|k IH]; [done|].
  rewrite seq_S, fmap_app, join_app, IH. cbn [fmap list_fmap mjoin list_join].
  rewrite app_nil_r, take_take_drop. f_equal. lia.
Qed.

(** X19. The pages of [paginate] cover the rows: for a limit of at least
    one, the data of the pages [1] to [totalPages], one after the other,
    are the rows themselves, each once and in order. *)
Theorem paginate_pages_cover {A} (rows : list A) (lim : Z) :
  (1 ≤ lim)%Z →
  ∃ n, ceil_div (length rows) lim = Finite n
       ∧ (0 ≤ n)%Z
       ∧ mjoin (page_data rows lim <$> seqZ 1 n) = rows.
Proof.
  intros Hl.
  destruct (ceil_div_bounds (length rows) lim Hl) as (n & Hn & Hlo & Hhi).
  exists n. split; [done|]. split; [nia|].
  unfold seqZ. rewrite <- list_fmap_compose.
  rewrite (list_fmap_ext _ (λ i, take (Z.to_nat lim)
                                   (drop (i * Z.to_nat lim) rows))).
  - rewrite windows_concat. apply take_ge. nia.
  - intros i j Hj. cbn. unfold page_data.
    rewrite paginate_in_range by lia. cbn [data].
    do 2 f_equal. nia.
Qed.

Lemma paginate_pages_cover_example :
  ∃ n, ceil_div (length ["a"; "b"; "c"; "d"; "e"]) 2 = Finite n
       ∧ (0 ≤ n)%Z
       ∧ mjoin (page_data ["a"; "b"; "c"; "d"; "e"] 2 <$> seqZ 1 n)
         = ["a"; "b"; "c"; "d"; "e"].
Proof. apply paginate_pages_cover. lia. Defined.

(** X20. The degenerate pages, which the pagination schema lets through
    (its [page] and [limit] are strings of digits, zero included).  With a
    limit of zero every page is empty, [totalPages] is not a number of
    pages, and [hasNext] holds on every page as soon as the count is
    positive; with a page of zero and a positive limit [findMany] is handed
    a negative [skip] and the call is rejected. *)
Theorem paginate_degenerate {A} (rows : list A) (counted : nat) (pg lim : Z) :
  (∃ r, paginate rows counted (Some pg) (Some 0) = Some r
        ∧ data r = []
        ∧ totalPages r = (if decide (counted = 0%nat) then NaN else Infinity)
        ∧ hasNext r = bool_decide (counted ≠ 0%nat))
  ∧ ((1 ≤ lim)%Z → paginate rows counted (Some 0) (Some lim) = None).
Proof.
  split.
  - unfold paginate, findMany, ceil_div. cbn [from_option id].
    rewrite decide_False by lia. rewrite decide_True by lia.
    eexists. split; [done|]. cbn. rewrite decide_True by done.
    split; [done|]. split; [done|].
    case_decide; [by rewrite bool_decide_eq_false_2 by tauto|].
    by rewrite bool_decide_eq_true_2.
  - intros Hl. unfold paginate, findMany. cbn [from_option id].
    by rewrite decide_True by lia.
Qed.

Lemma paginate_degenerate_example :
  paginate ["a"; "b"] 2 (Some 0) (Some 10) = None.
Proof.
  apply (proj2 (paginate_degenerate ["a"; "b"] 2 0 10)). lia.
Defined.

Section BulkCreateFacts.
Context {T St : Type} (createMany : list T → St → Exn + (Z * St)).

Lemma slice_window (data : list T) (i c : Z) :
  (0 ≤ i)%Z → (1 ≤ c)%Z →
  slice data i (i + c) = take (Z.to_nat c) (drop (Z.to_nat i) data).
Proof.
  intros Hi Hc. unfold slice.
  rewrite !decide_False by lia.
  destruct (decide (i < Z.of_nat (length data))) as [Hlt|Hge].
  - replace (Z.to_nat (Z.min i (Z.of_nat (length data)))) with (Z.to_nat i)
      by lia.
    destruct (decide (i + c ≤ Z.of_nat (length data))%Z) as [Hin|Hout].
    + f_equal. lia.
    + rewrite !take_ge; [done| |]; rewrite length_drop; lia.
  - rewrite !drop_ge by lia. by rewrite !take_nil.
Qed.

Lemma bulkCreate_from_chunks (data : list T) (c : Z) (n : nat) (i : Z) :
  (1 ≤ c)%Z → (0 ≤ i)%Z → (Z.of_nat (length data) - i ≤ Z.of_nat n)%Z →
  ∃ chunks,
    mjoin chunks = drop (Z.to_nat i) data
    ∧ Forall (λ ch, ch ≠ [] ∧ (Z.of_nat (length ch) ≤ c)%Z) chunks
    ∧ ∀ (fuel : nat) created st,
        (Z.of_nat (length data) - i < Z.of_nat fuel)%Z → (0 < fuel)%nat →
        bulkCreate_from createMany fuel data c i created st
        = Some (send createMany chunks created st).
Proof.
  intros Hc. revert i. induction n as [|n IH]; intros i Hi Hn.
  - exists []. split; [|split; [constructor|]].
    + rewrite drop_ge; [done|lia].
    + intros [|fuel] created st Hf Hpos; [lia|]. cbn [bulkCreate_from send].
      rewrite decide_False; [done|lia].
  - destruct (decide (i < Z.of_nat (length data))) as [Hlt|Hge].
    + destruct (IH (i + c)) as (chunks & Hj & Hall & Hrun); [lia|lia|].
      exists (take (Z.to_nat c) (drop (Z.to_nat i) data) :: chunks).
      split; [|split].
      * change ((take (Z.to_nat c) (drop (Z.to_nat i) data)
                 ++ mjoin chunks)%list = drop (Z.to_nat i) data).
        rewrite Hj. replace (Z.to_nat (i + c))
          with (Z.to_nat i + Z.to_nat c)%nat by lia.
        rewrite <- drop_drop. apply take_drop.
      * constructor; [|done]. split.
        -- intros Hnil. apply (f_equal length) in Hnil.
           rewrite length_take, length_drop in Hnil. cbn in Hnil. lia.
        -- rewrite length_take. lia.
      * intros [|fuel] created st Hf Hpos; [lia|]. cbn [bulkCreate_from send].
        rewrite decide_True by done. rewrite slice_window by lia.
        destruct (createMany _ st) as [e|[count st']]; [done|].
        apply Hrun; lia.
    + exists []. split; [|split; [constructor|]].
      * rewrite drop_ge; [done|lia].
      * intros [|fuel] created st Hf Hpos; [lia|]. cbn [bulkCreate_from send].
        by rewrite decide_False.
Qed.

(** X21. [bulkCreate] with a chunk size of at least one sends every row
    once.  There is a list of chunks, none empty and none longer than the
    chunk size, that laid end to end is the data; and with any fuel above
    the number of rows the call is these chunks handed to [createMany] in
    order, stopping at the first that throws, the count being the sum of
    the counts. *)
Theorem bulkCreate_sends_each_row_once (data : list T) (c : Z) :
  (1 ≤ c)%Z →
  ∃ chunks,
    mjoin chunks = data
    ∧ Forall (λ ch, ch ≠ [] ∧ (Z.of_nat (length ch) ≤ c)%Z) chunks
    ∧ ∀ (fuel : nat) (st : St),
        (length data < fuel)%nat →
        bulkCreate createMany fuel data (Some c) st
        = Some (send createMany chunks 0 st).
Proof.
  intros Hc.
  destruct (bulkCreate_from_chunks data c (length data) 0)
    as (chunks & Hj & Hall & Hrun); [done|done|lia|].
  exists chunks. split; [done|]. split; [done|].
  intros fuel st Hf. unfold bulkCreate. cbn [from_option id].
  apply Hrun; lia.
Qed.

(** X22. [bulkCreate] with a chunk size of zero or less never returns on
    data that is not empty: the index does not advance past the first row,
    so whatever the fuel the loop is still running, unless [createMany]
    threw. *)
Theorem bulkCreate_never_returns (data : list T) (c : Z) (fuel : nat)
    (st : St) :
  (c ≤ 0)%Z → data ≠ [] →
  ∀ count st', bulkCreate createMany fuel data (Some c) st
               ≠ Some (inr (count, st')).
Proof.
  intros Hc Hne count st'. unfold bulkCreate. cbn [from_option id].
  assert (∀ i created st0,
            (i ≤ 0)%Z →
            bulkCreate_from createMany fuel data c i created st0
            ≠ Some (inr (count, st'))) as H; [|by apply H].
  induction fuel as [|fuel IH]; intros i created st0 Hi; [done|].
  cbn [bulkCreate_from]. rewrite decide_True.
  - destruct (createMany _ st0) as [e|[n st1]]; [done|]. apply IH. lia.
  - destruct data; [done|]. cbn. lia.
Qed.

End BulkCreateFacts.

Lemma bulkCreate_sends_each_row_once_example :
  ∃ chunks,
    mjoin chunks = ["a"; "b"; "c"; "d"; "e"]
    ∧ Forall (λ ch, ch ≠ [] ∧ (Z.of_nat (length ch) ≤ 2)%Z) chunks
    ∧ ∀ (fuel : nat) (st : list (list string)),
        (length ["a"; "b"; "c"; "d"; "e"] < fuel)%nat →
        bulkCreate recording fuel ["a"; "b"; "c"; "d"; "e"] (Some 2) st
        = Some (send recording chunks 0 st).
Proof.
  apply (bulkCreate_sends_each_row_once recording). lia.
Defined.

Lemma bulkCreate_never_returns_example :
  bulkCreate recording 1000 ["a"] (Some 0) [] ≠ Some (inr (1, [["a"]])).
Proof.
  apply (bulkCreate_never_returns recording ["a"] 0 1000 []); [lia|done].
Defined.

(** X23. [findOrCreate] finds before it creates.  When a row matches the
    filter the table is left as it is and a matching row is returned; when
    none does, the [create] data are stored under an unused id and
    returned.  When the [create] data match the filter the call is
    idempotent: repeated on the table it left, it returns the same record,
    creates nothing and changes nothing.  When they do not match, every
    repetition stores one more copy. *)
Theorem findOrCreate_finds_first {A} (p : A → bool) (row : A)
    (m m1 : gmap string A) (record : string * A) (created : bool) :
  findOrCreate p row m = (record, created, m1) →
  (created = false →
   m1 = m ∧ m !! record.1 = Some record.2 ∧ p record.2 = true)
  ∧ (created = true →
     m !! record.1 = None ∧ record.2 = row ∧ m1 = <[record.1 := row]> m
     ∧ ∀ id r, m !! id = Some r → p r = false)
  ∧ (p row = true → findOrCreate p row m1 = (record, false, m1))
  ∧ (p row = false → created = true →
     ∃ id2, id2 ≠ record.1 ∧ m1 !! id2 = None
            ∧ findOrCreate p row m1 = ((id2, row), true, <[id2 := row]> m1)).
Proof.
  unfold findOrCreate at 1.
  destruct (findFirst p m) as [[id r]|] eqn:Hf.
  - intros [= <- <- <-]. pose proof (findFirst_Some _ _ _ _ Hf) as [Hr Hp].
    split; [done|]. split; [done|]. split; [|done].
    intros _. unfold findOrCreate. by rewrite Hf.
  - unfold create. intros [= <- <- <-]. cbn [fst snd].
    assert (m !! fresh (dom m) = None) as Hfresh
      by apply not_elem_of_dom, is_fresh.
    split; [done|]. split.
    { intros _. split; [done|]. split; [done|]. split; [done|].
      intros id r. by apply findFirst_None. }
    split.
    + intros Hp. unfold findOrCreate.
      rewrite (findFirst_unique p _ (fresh (dom m)) row); [done| |done|].
      * apply lookup_insert_eq.
      * intros id' r' Hr' Hp'.
        destruct (decide (id' = fresh (dom m))) as [|Hne]; [done|].
        rewrite lookup_insert_ne in Hr' by done.
        by rewrite (findFirst_None _ _ _ _ Hf Hr') in Hp'.
    + intros Hp _. exists (fresh (dom (<[fresh (dom m) := row]> m))).
      assert (<[fresh (dom m) := row]> m
                !! fresh (dom (<[fresh (dom m) := row]> m)) = None) as Hfresh2
        by apply not_elem_of_dom, is_fresh.
      split; [|split; [done|]].
      * intros Heq. rewrite Heq, lookup_insert_eq in Hfresh2. done.
      * unfold findOrCreate. rewrite findFirst_None_intro; [done|].
        intros id' r' Hr'.
        destruct (decide (id' = fresh (dom m))) as [->|Hne].
        -- rewrite lookup_insert_eq in Hr'. by injection Hr' as <-.
        -- rewrite lookup_insert_ne in Hr' by done.
           by apply (findFirst_None _ _ _ _ Hf Hr').
Qed.

Lemma findOrCreate_finds_first_example :
  findOrCreate (λ u, bool_decide (email u = "ann@example.com"))
    {| email := "ann@example.com"; password := Bcrypt 10 "x"; name := "Ann";
       lastLoginAt := None; deletedAt := None |}
    (users (store Scenario.registered))
  = (("0", {| email := "ann@example.com";
              password := Bcrypt 10 "correct horse"; name := "Ann";
              lastLoginAt := None; deletedAt := None |}),
     false, users (store Scenario.registered)).
Proof.
  refine (proj1 (proj2 (proj2
            (findOrCreate_finds_first
               (λ u, bool_decide (email u = "ann@example.com"))
               {| email := "ann@example.com"; password := Bcrypt 10 "x";
                  name := "Ann"; lastLoginAt := None; deletedAt := None |}
               (users (store Scenario.registered))
               (users (store Scenario.registered))
               ("0", {| email := "ann@example.com";
                        password := Bcrypt 10 "correct horse"; name := "Ann";
                        lastLoginAt := None; deletedAt := None |})
               false _))) _).
  - vm_compute. reflexivity.
  - reflexivity.
Defined.

End QueryHelperFacts.

(** * Further properties of the validation middleware *)

Section ValidationFacts.
Import Validation.

Lemma messages_at_cons (k : string) (err : ZodIssue) (issues : list ZodIssue) :
  messages_at k (err :: issues)
  = if decide (join_path (path err) = k)
    then message err :: messages_at k issues
    else messages_at k issues.
Proof.
  unfold messages_at. rewrite filter_cons. by case_decide.
Qed.

Lemma format_from_spec (acc : gmap string (list string))
    (issues : list ZodIssue) :
  (∀ k msgs, acc !! k = Some msgs → (k ∉ inherited) ∧ msgs ≠ []) →
  (format_from acc issues = None
   ↔ Exists (λ err, join_path (path err) ∈ inherited) issues)
  ∧ ∀ errors,
      format_from acc issues = Some errors →
      ∀ k, default [] (errors !! k)
           = (default [] (acc !! k) ++ messages_at k issues)%list
           ∧ (errors !! k = None
              ↔ acc !! k = None ∧ messages_at k issues = []).
Proof.
  revert acc. induction issues as [|err issues IH]; intros acc Hacc.
  - split; [by rewrite Exists_nil|].
    intros errors [= <-] k. cbn. rewrite app_nil_r. tauto.
  - cbn [format_from]. unfold add_issue. rewrite Exists_cons.
    set (p := join_path (path err)).
    destruct (acc !! p) as [msgs|] eqn:Hp.
    + destruct (Hacc _ _ Hp) as [Hin Hne].
      destruct (IH (<[p := (msgs ++ [message err])%list]> acc))
        as [Hnone Hsome].
      { intros k ms. destruct (decide (k = p)) as [->|Hk].
        - rewrite lookup_insert_eq. intros [= <-]. split; [done|].
          by destruct msgs.
        - rewrite lookup_insert_ne by done. apply Hacc. }
      split; [rewrite Hnone; tauto|].
      intros errors He k. destruct (Hsome errors He k) as [Hd Hn].
      rewrite messages_at_cons. fold p.
      destruct (decide (p = k)) as [<-|Hk].
      * rewrite lookup_insert_eq in Hd, Hn. rewrite Hd, Hp. cbn.
        rewrite <- app_assoc. split; [done|]. rewrite Hn.
        split; intros [? ?]; done.
      * rewrite lookup_insert_ne in Hd, Hn by done. done.
    + case_bool_decide as Hin.
      * split; [tauto|done].
      * destruct (IH (<[p := [message err]]> acc)) as [Hnone Hsome].
        { intros k ms. destruct (decide (k = p)) as [->|Hk].
          - rewrite lookup_insert_eq. by intros [= <-].
          - rewrite lookup_insert_ne by done. apply Hacc. }
        split; [rewrite Hnone; tauto|].
        intros errors He k. destruct (Hsome errors He k) as [Hd Hn].
        rewrite messages_at_cons. fold p.
        destruct (decide (p = k)) as [<-|Hk].
        -- rewrite lookup_insert_eq in Hd, Hn. rewrite Hd, Hp. cbn.
           split; [done|]. rewrite Hn. split; intros [? ?]; done.
        -- rewrite lookup_insert_ne in Hd, Hn by done. done.
Qed.

(** X24. [formatZodErrors] groups the messages by joined path.  It throws
    exactly when the path of some issue joins to a property name that an
    object inherits ([constructor], [toString], [__proto__], ...).
    Otherwise the result has a key for exactly the joined paths that occur,
    and under each key the messages of the issues with that path, all of
    them and in the order of the issues; issues whose paths differ but join
    to the same text share a key. *)
Theorem formatZodErrors_groups (issues : list ZodIssue) :
  (formatZodErrors issues = None
   ↔ Exists (λ err, join_path (path err) ∈ inherited) issues)
  ∧ ∀ errors,
      formatZodErrors issues = Some errors →
      ∀ k, errors !! k
           = if decide (messages_at k issues = []) then None
             else Some (messages_at k issues).
Proof.
  destruct (format_from_spec ∅ issues) as [Hnone Hsome].
  { intros k msgs. by rewrite lookup_empty. }
  split; [done|]. intros errors He k.
  destruct (Hsome errors He k) as [Hd Hn].
  rewrite lookup_empty in Hd, Hn. cbn in Hd.
  case_decide as Hm.
  - apply Hn. done.
  - destruct (errors !! k) as [ms|] eqn:Hk; [by cbn in Hd; subst|].
    destruct Hm. by apply Hn.
Qed.

Lemma formatZodErrors_groups_example :
  ∃ errors,
    formatZodErrors
      [ {| path := [Key "body"; Key "email"];
           message := "Invalid email format" |};
        {| path := [Key "body"; Key "items"; Index 0];
           message := "Required" |};
        {| path := [Key "body.email"]; message := "Too long" |} ]
    = Some errors
    ∧ errors !! "body.email" = Some ["Invalid email format"; "Too long"]
    ∧ errors !! "body.items.0" = Some ["Required"]
    ∧ errors !! "body" = None.
Proof.
  destruct (formatZodErrors
              [ {| path := [Key "body"; Key "email"];
                   message := "Invalid email format" |};
                {| path := [Key "body"; Key "items"; Index 0];
                   message := "Required" |};
                {| path := [Key "body.email"]; message := "Too long" |} ])
    as [errors|] eqn:He.
  - exists errors. split; [reflexivity|].
    pose proof (proj2 (formatZodErrors_groups _) errors He) as H.
    rewrite (H "body.email"), (H "body.items.0"), (H "body").
    vm_compute. done.
  - vm_compute in He. discriminate.
Defined.

Lemma strip_tags_from_no_lt (b : bool) (s : JsString) :
  60%N ∉ strip_tags_from b s.
Proof.
  revert b. induction s as [|c s IH]; intros b; cbn; [apply not_elem_of_nil|].
  destruct b; repeat case_decide; try apply IH.
  rewrite not_elem_of_cons. split; [done|apply IH].
Qed.

Lemma strip_tags_id (s : JsString) : 60%N ∉ s → strip_tags s = s.
Proof.
  unfold strip_tags. induction s as [|c s IH]; [done|].
  rewrite not_elem_of_cons. intros [Hc Hs]. cbn.
  rewrite decide_False by done. by rewrite IH.
Qed.

Lemma trim_start_subseteq (s : JsString) : trim_start s ⊆ s.
Proof.
  induction s as [|c s IH]; [done|]. cbn. destruct (is_space c); [|done].
  intros x Hx. apply elem_of_cons. right. by apply IH.
Qed.

Lemma trim_start_head (s : JsString) (c : N) :
  head (trim_start s) = Some c → is_space c = false.
Proof.
  induction s as [|d s IH]; [done|]. cbn.
  destruct (is_space d) eqn:Hd; [done|]. cbn. by intros [= <-].
Qed.

Lemma trim_start_id (s : JsString) :
  (∀ c, head s = Some c → is_space c = false) → trim_start s = s.
Proof.
  destruct s as [|c s]; [done|]. intros H. cbn. by rewrite (H c).
Qed.

Lemma trim_start_last (s : JsString) (c : N) :
  last s = Some c → is_space c = false → last (trim_start s) = Some c.
Proof.
  induction s as [|d s IH]; [done|]. intros Hl Hc. cbn.
  destruct (is_space d) eqn:Hd; [|done].
  destruct s as [|e s]; [cbn in Hl; congruence|]. by apply IH.
Qed.

Lemma trim_ends (s : JsString) :
  (∀ c, head (trim s) = Some c → is_space c = false)
  ∧ (∀ c, last (trim s) = Some c → is_space c = false).
Proof.
  unfold trim. split; intros c.
  - rewrite head_reverse. intros Hl.
    destruct (trim_start s) as [|d u] eqn:Hu; [done|].
    assert (is_space d = false) as Hd
      by (apply (trim_start_head s); by rewrite Hu).
    assert (last (trim_start (reverse (d :: u))) = Some d) as Hl'.
    { apply trim_start_last; [|done]. by rewrite last_reverse. }
    congruence.
  - rewrite last_reverse. apply trim_start_head.
Qed.

Lemma trim_id (s : JsString) :
  (∀ c, head s = Some c → is_space c = false) →
  (∀ c, last s = Some c → is_space c = false) →
  trim s = s.
Proof.
  intros Hh Hl. unfold trim. rewrite (trim_start_id s Hh).
  rewrite trim_start_id; [apply reverse_involutive|].
  intros c. rewrite head_reverse. apply Hl.
Qed.

Lemma trim_subseteq (s : JsString) : trim s ⊆ s.
Proof.
  unfold trim. intros c. rewrite elem_of_reverse. intros Hc.
  pose proof (trim_start_subseteq _ c Hc) as Hc'.
  rewrite elem_of_reverse in Hc'.
  exact (trim_start_subseteq _ c Hc').
Qed.

Lemma collapse_from_spaced (b : bool) (s : JsString) :
  spaced b (collapse_from b s).
Proof.
  revert b. induction s as [|c s IH]; intros b; [done|]. cbn.
  destruct (is_space c) eqn:Hc.
  - destruct b; [apply IH|]. cbn. by split; [|split; [|apply IH]].
  - cbn. rewrite Hc. apply IH.
Qed.

Lemma collapse_from_id (b : bool) (s : JsString) :
  spaced b s → collapse_from b s = s.
Proof.
  revert b. induction s as [|c s IH]; intros b; [done|]. cbn.
  destruct (is_space c).
  - intros (-> & -> & Hs). by rewrite IH.
  - intros Hs. by rewrite IH.
Qed.

Lemma collapse_from_elem (b : bool) (s : JsString) (c : N) :
  c ∈ collapse_from b s → c = 32%N ∨ c ∈ s.
Proof.
  revert b. induction s as [|d s IH]; intros b.
  { cbn. by intros ?%elem_of_nil. }
  cbn. destruct (is_space d); [destruct b|]; rewrite ?elem_of_cons;
    intros H; try destruct H as [->|H]; auto;
    destruct (IH _ H); auto.
Qed.

Lemma collapse_from_head (b : bool) (s : JsString) (c : N) :
  (∀ d, head s = Some d → is_space d = false) →
  head (collapse_from b s) = Some c → is_space c = false.
Proof.
  destruct s as [|d s]; [done|]. intros H. cbn.
  rewrite (H d eq_refl). cbn. intros [= <-]. exact (H d eq_refl).
Qed.

Lemma collapse_from_last (b : bool) (s : JsString) (d : N) :
  last s = Some d → is_space d = false →
  last (collapse_from b s) = Some d.
Proof.
  intros Hl Hd. revert b. induction s as [|x s IH]; intros b; [done|].
  destruct s as [|e s].
  - cbn in Hl. injection Hl as ->. cbn. by rewrite Hd.
  - rewrite last_cons_cons in Hl. specialize (IH Hl).
    change (collapse_from b (x :: e :: s))
      with (if is_space x
            then if b then collapse_from true (e :: s)
                 else 32%N :: collapse_from true (e :: s)
            else x :: collapse_from false (e :: s)).
    destruct (is_space x); [destruct b|]; rewrite ?last_cons, IH; done.
Qed.

Lemma spaced_lookup (s : JsString) (b : bool) (i : nat) (c : N) :
  spaced b s → s !! i = Some c → is_space c = true →
  c = 32%N ∧ ∀ d, s !! S i = Some d → is_space d = false.
Proof.
  revert b i. induction s as [|x s IH]; intros b i Hs Hi Hc; [done|].
  cbn in Hs. destruct i as [|i].
  - cbn in Hi. injection Hi as ->. rewrite Hc in Hs.
    destruct Hs as (-> & _ & Hs). split; [done|].
    intros d Hd. destruct s as [|y s]; [done|]. cbn in Hd, Hs.
    injection Hd as ->. by destruct (is_space d) eqn:Hsd; [destruct Hs as (_ & ? & _)|].
  - destruct (is_space x); [destruct Hs as (_ & _ & Hs)|]; by eapply IH.
Qed.

Lemma sanitize_normal (s : JsString) :
  let t := sanitize s in
  (60%N ∉ t)
  ∧ spaced false t
  ∧ (∀ c, head t = Some c → is_space c = false)
  ∧ (∀ c, last t = Some c → is_space c = false).
Proof.
  cbn zeta. unfold sanitize, collapse.
  set (u := trim (strip_tags s)).
  destruct (trim_ends (strip_tags s)) as [Hh Hl]. fold u in Hh, Hl.
  assert (60%N ∉ u) as Hu.
  { intros Hin. apply trim_subseteq in Hin.
    by apply (strip_tags_from_no_lt false s). }
  split.
  { intros Hin. by apply collapse_from_elem in Hin as [|]. }
  split; [apply collapse_from_spaced|]. split.
  - intros c. by apply collapse_from_head.
  - intros c. destruct (last u) as [d|] eqn:Hd.
    + rewrite (collapse_from_last false u d Hd (Hl d eq_refl)).
      intros [= <-]. by apply Hl.
    + apply last_None in Hd. by rewrite Hd.
Qed.

Lemma sanitize_idemp (s : JsString) : sanitize (sanitize s) = sanitize s.
Proof.
  destruct (sanitize_normal s) as (Hno & Hsp & Hh & Hl).
  cbn zeta in *. unfold sanitize at 1.
  rewrite (strip_tags_id _ Hno), (trim_id _ Hh Hl).
  by apply collapse_from_id.
Qed.

(** X25. What [sanitizeInput] leaves of a string.  The result holds no
    [<]; its only white space are single spaces, each strictly inside the
    text, so it neither starts nor ends with white space and has no two
    white-space characters in a row; and sanitising it again changes
    nothing. *)
Theorem sanitize_clean (s : JsString) :
  let t := sanitize s in
  (60%N ∉ t)
  ∧ (∀ i c, t !! i = Some c → is_space c = true →
            c = 32%N ∧ (0 < i)%nat ∧ (S i < length t)%nat
            ∧ ∀ d, t !! S i = Some d → is_space d = false)
  ∧ sanitize t = t.
Proof.
  destruct (sanitize_normal s) as (Hno & Hsp & Hh & Hl). cbn zeta in *.
  split; [done|]. split; [|apply sanitize_idemp].
  intros i c Hi Hc.
  destruct (spaced_lookup _ _ _ _ Hsp Hi Hc) as [-> Hnext].
  split; [done|]. split; [|split; [|done]].
  - destruct i; [|lia].
    assert (head (sanitize s) = Some 32%N) as Hhead
      by (by destruct (sanitize s)).
    by rewrite (Hh _ Hhead) in Hc.
  - destruct (decide (S i < length (sanitize s))%nat) as [|Hge]; [done|].
    assert (last (sanitize s) = Some 32%N) as Hlast.
    { rewrite last_lookup. rewrite <- Hi. f_equal.
      apply lookup_lt_Some in Hi. lia. }
    by rewrite (Hl _ Hlast) in Hc.
Qed.

Lemma sanitize_clean_example :
  sanitize [32; 60; 98; 62; 72; 105; 60; 47; 98; 62; 32; 9; 32; 116; 104;
            101; 114; 101; 32; 60; 115]%N
  = [72; 105; 32; 116; 104; 101; 114; 101]%N
  ∧ sanitize [72; 105; 32; 116; 104; 101; 114; 101]%N
    = [72; 105; 32; 116; 104; 101; 114; 101]%N.
Proof.
  assert (sanitize [32; 60; 98; 62; 72; 105; 60; 47; 98; 62; 32; 9; 32; 116;
                    104; 101; 114; 101; 32; 60; 115]%N
          = [72; 105; 32; 116; 104; 101; 114; 101]%N) as H
    by (vm_compute; reflexivity).
  split; [exact H|].
  rewrite <- H.
  exact (proj2 (proj2 (sanitize_clean _))).
Defined.

Lemma sanitize_value_idemp (v : Value) :
  sanitize_value (sanitize_value v) = sanitize_value v.
Proof.
  destruct v as [s|raw]; [|done]. cbn. f_equal.
  apply sanitize_idemp.
Qed.

Lemma sanitize_field_lookup (body : gmap string Value) (f k : string) :
  sanitize_field body f !! k
  = if decide (k = f) then sanitize_value <$> body !! k else body !! k.
Proof.
  unfold sanitize_field.
  destruct (body !! f) as [[[|c s]|raw]|] eqn:Hf; case_decide; subst;
    rewrite ?lookup_insert_eq, ?lookup_insert_ne, ?Hf by done; done.
Qed.

(** X26. [sanitizeInput] rewrites the listed fields and nothing else: a
    field that is listed and holds a string holds the sanitised string
    afterwards, however often it is listed; every other field, and every
    value that is not a string, is left as it was, and no field is added or
    removed. *)
Theorem sanitizeInput_fields (fields : list string)
    (body : gmap string Value) (k : string) :
  sanitizeInput fields body !! k
  = if decide (k ∈ fields) then sanitize_value <$> body !! k
    else body !! k.
Proof.
  unfold sanitizeInput. revert body.
  induction fields as [|f fields IH]; intros body.
  - cbn. rewrite decide_False; [done|apply not_elem_of_nil].
  - cbn [foldl]. rewrite IH, sanitize_field_lookup.
    destruct (decide (k = f)) as [->|Hne].
    + rewrite (decide_True (P := f ∈ f :: fields))
        by (apply elem_of_cons; by left).
      case_decide; [|done].
      destruct (body !! f) as [v|]; [|done]. cbn.
      by rewrite sanitize_value_idemp.
    + destruct (decide (k ∈ fields)) as [Hin|Hnin].
      * by rewrite decide_True by (apply elem_of_cons; by right).
      * rewrite decide_False; [done|].
        rewrite elem_of_cons. tauto.
Qed.

End ValidationFacts.
